(** * chatBackend: process bootstrap, storage reconnection and the
      terminal Express stages

    A shallow embedding of the three source files of the repository:

    - [setupDatabase]  (the default export that opens the mongoose
      connection and registers the 'disconnected' listener),
    - [app.ts]         ([Application.initialize]),
    - [setupServer.ts] (class [ChattyServer]).

    The program is event driven.  Its synchronous code is written in a
    small state monad [M] over a [World] (the process: the calls it has
    made so far, its pending promises, its listeners, the Express stack,
    the redis handles, the suspended [startServer] frame).  What the
    environment does later (a promise settles, mongoose emits
    'disconnected', the http server emits 'listening', a socket is
    accepted) is an [Event]; [step] runs the reaction the program
    registered for it, and [run] folds a schedule of events.  One event
    together with the reactions it triggers is one atomic step: Node runs
    the promise jobs of a completed I/O operation to the end before it
    looks at the next one.

    What is outside the three files is a parameter or a stated boundary:

    - [./config], [./routes], the third-party middleware and what
      Express, Node and socket.io decide by themselves (the final
      handler, how a registered route matches, whether a path decodes,
      whether a reply carries a body, which requests socket.io takes)
      are parameters ([Config], [Libraries]);
    - a promise of mongoose or redis settles when and how the schedule
      says; a schedule may be any list of events, also one that settles a
      promise twice or one that nobody waits for (such an event changes
      nothing);
    - constructors and registrations ([express()], [app.use], [new
      http.Server], [new Server], [createClient], [duplicate],
      [createAdapter]) return normally;
    - a failing [listen] (the 'error' event of the http server, for which
      the program has no listener) is not part of the model. *)

From Stdlib Require Import ZArith Lia Ascii String.
From stdpp Require Import base option list strings gmap pretty.

Local Open Scope string_scope.
Local Open Scope list_scope.
Local Open Scope Z_scope.

(* ===================================================================== *)
(** ** Values that travel through the program *)
(* ===================================================================== *)

(** JSON documents, as [res.json] serialises them. *)
#[local] Unset Elimination Schemes.
Inductive Json : Type :=
| JNull
| JBool (b : bool)
| JNum (n : Z)
| JStr (s : string)
| JArr (items : list Json)
| JObj (fields : list (string * Json)).
#[local] Set Elimination Schemes.

(** Modelled from the spec: the class [CustomError] of
    [./shared/globals/helpers/error-handler] is imported by
    [setupServer.ts] but is not among the source files.  The error handler
    reads two things from it: the field [statusCode] and the result of the
    method [serializeErrors()]; the spec calls them the declared status
    code and the serializable body. *)
Record CustomError : Type := {
  statusCode : Z;
  serializeErrors : Json
}.

(** What can arrive as [error] in a catch clause, a rejection handler or
    an Express error handler.  [error instanceof CustomError] is the test
    for the first constructor. *)
Inductive IErrorResponse : Type :=
| IsCustomError (e : CustomError)
| Unhandled (raw : string).

Definition instanceof_CustomError (error : IErrorResponse) : option CustomError :=
  match error with
  | IsCustomError e => Some e
  | Unhandled _ => None
  end.

(** The two loggers made by [config.createLogger]. *)
Inductive LoggerName : Type := setupDatabase | setupServer.

Inductive Level : Type := Info | Error.

Inductive LogPayload : Type :=
| Text (msg : string)
| TextAnd (msg : string) (err : IErrorResponse)
| Thrown (err : IErrorResponse).

Record LogEntry : Type := {
  logger : LoggerName;
  level : Level;
  payload : LogPayload
}.

(* ===================================================================== *)
(** ** Express: requests, responses, the layer stack *)
(* ===================================================================== *)

Module Express.

Record Request : Type := {
  method : string;
  originalUrl : string  (* the request target as received, query string included *)
}.

(** What the client receives; [None] as body when none goes out (a
    reply to HEAD, a status that carries no body). *)
Record Reply : Type := {
  reply_status : Z;
  reply_body : option Json
}.

(** The response object a handler writes to: the status that the next
    send will use, and the reply once it has been sent. *)
Record Response : Type := {
  res_statusCode : Z;
  res_sent : option Reply
}.

Definition fresh_response : Response :=
  {| res_statusCode := 200; res_sent := None |}.

(** [res.status(code)]: stores the code; whether it is one that can be
    sent shows when the head is written. *)
Definition status (code : Z) (res : Response) : Response :=
  {| res_statusCode := code; res_sent := res_sent res |}.

(** What a send throws. *)
Definition ERR_HTTP_HEADERS_SENT : IErrorResponse :=
  Unhandled "ERR_HTTP_HEADERS_SENT".
Definition ERR_HTTP_INVALID_STATUS_CODE : IErrorResponse :=
  Unhandled "ERR_HTTP_INVALID_STATUS_CODE".

(** What a failed decode of a path parameter throws. *)
Definition URIError : IErrorResponse :=
  Unhandled "URIError: Failed to decode param".

(** Node writes a head only for a status code from 100 to 999. *)
Definition valid_status (code : Z) : bool := (100 <=? code) && (code <=? 999).

Inductive Sent : Type :=
| Wrote (res : Response)
| Threw (err : IErrorResponse).

Section Sending.
(** Whether Express and Node let a body go out for this request and
    this status (not for HEAD, not for 204 or 304, ...). *)
Variable sends_body : Request -> Z -> bool.

(** [res.json(body)]: sends with the current status.  It throws when
    the response has been sent already, and when the status code is
    one that Node refuses; nothing is sent then. *)
Definition json (body : Json) (req : Request) (res : Response) : Sent :=
  match res_sent res with
  | Some _ => Threw ERR_HTTP_HEADERS_SENT
  | None =>
      if valid_status (res_statusCode res) then
        Wrote {| res_statusCode := res_statusCode res;
                 res_sent :=
                   Some {| reply_status := res_statusCode res;
                           reply_body :=
                             if sends_body req (res_statusCode res)
                             then Some body else None |} |}
      else Threw ERR_HTTP_INVALID_STATUS_CODE
  end.
End Sending.

(** How a handler leaves: without calling [next], with [next()], or with
    an error ([next(err)], a throw, or a rejected promise under
    express-async-errors). *)
Inductive Next : Type :=
| Stop
| NextOk
| NextErr (err : IErrorResponse).

Record Handled : Type := {
  h_res : Response;
  h_log : list LogEntry;
  h_next : Next
}.

(** A handler whose last send is [s] and which would leave with [next]
    after it: when the send throws, the statements after it do not run
    and the layer hands the error on. *)
Definition after_send (s : Sent) (unsent : Response) (log : list LogEntry)
    (next : Next) : Handled :=
  match s with
  | Wrote res => {| h_res := res; h_log := log; h_next := next |}
  | Threw err => {| h_res := unsent; h_log := log; h_next := NextErr err |}
  end.

Definition RequestHandler : Type := Request -> Response -> Handled.
Definition ErrorRequestHandler : Type :=
  IErrorResponse -> Request -> Response -> Handled.

Inductive Pattern : Type :=
| Slash                (* the mount point of app.use(fn) *)
| Star                 (* '*' *)
| Exact (p : string)   (* a route path *)
| Prefix (p : string). (* a mount point: app.use(p, router) *)

(** One entry of the application's stack. *)
Inductive Layer : Type :=
| Handle (verb : option string) (pat : Pattern) (h : RequestHandler)
| HandleError (h : ErrorRequestHandler).  (* a handler of four parameters *)

(** [app.use(fn)] and [app.all(path, fn)] *)
Definition use (h : RequestHandler) : Layer := Handle None Slash h.
Definition all (pat : Pattern) (h : RequestHandler) : Layer := Handle None pat h.
Definition use_error (h : ErrorRequestHandler) : Layer := HandleError h.

(** What matching a layer against a request gives. *)
Inductive Match : Type :=
| NoMatch
| Matched
| MatchFailed (err : IErrorResponse).

(** The outcome of one request. *)
Record Served : Type := {
  served_res : Response;
  served_log : list LogEntry;
  fell_through : bool   (* the stack was exhausted: Express's own final handler ran *)
}.

Section Dispatch.
(** What Express answers by itself when the stack is exhausted and
    nothing has been sent (its built-in final handler). *)
Variable finalhandler : option IErrorResponse -> Request -> Reply.
(** Express's own matching of a layer that was registered with a verb
    and a path (case, trailing slash, segments, HEAD on a GET route
    are its business). *)
Variable route_match : option string -> Pattern -> Request -> Match.
(** Whether the path of the request decodes; '*' captures it. *)
Variable star_decodes : Request -> bool.

(** Whether the layer runs for a request while no error is in flight.
    [app.use(fn)] runs for every request; [app.all('*', fn)] runs for
    every request whose path decodes, and the failed decode is an
    error otherwise. *)
Definition layer_match (l : Layer) (req : Request) : Match :=
  match l with
  | Handle None Slash _ => Matched
  | Handle None Star _ =>
      if star_decodes req then Matched else MatchFailed URIError
  | Handle verb pat _ => route_match verb pat req
  | HandleError _ => NoMatch
  end.

Definition finish (err : option IErrorResponse) (req : Request)
    (res : Response) (logs : list LogEntry) : Served :=
  {| served_res :=
       match res_sent res with
       | Some _ => res
       | None => {| res_statusCode := reply_status (finalhandler err req);
                    res_sent := Some (finalhandler err req) |}
       end;
     served_log := logs;
     fell_through := true |}.

Definition stopped (res : Response) (logs : list LogEntry) : Served :=
  {| served_res := res; served_log := logs; fell_through := false |}.

(** The router's loop: layers in registration order; while no error is
    in flight only ordinary layers that match run, while one is only
    error handlers run; [next()] from an error handler clears it. *)
Fixpoint dispatch (stack : list Layer) (err : option IErrorResponse)
    (req : Request) (res : Response) (logs : list LogEntry) : Served :=
  match stack with
  | [] => finish err req res logs
  | l :: rest =>
      let continue (r : Handled) :=
        match h_next r with
        | Stop => stopped (h_res r) (logs ++ h_log r)
        | NextOk => dispatch rest None req (h_res r) (logs ++ h_log r)
        | NextErr e => dispatch rest (Some e) req (h_res r) (logs ++ h_log r)
        end in
      match l, err with
      | Handle _ _ h, None =>
          match layer_match l req with
          | Matched => continue (h req res)
          | NoMatch => dispatch rest None req res logs
          | MatchFailed e => dispatch rest (Some e) req res logs
          end
      | HandleError h, Some e => continue (h e req res)
      | _, _ => dispatch rest err req res logs
      end
  end.

Definition serve (stack : list Layer) (req : Request) : Served :=
  dispatch stack None req fresh_response [].

End Dispatch.

(** Who answers a request that arrives at the http server. *)
Inductive Answered : Type :=
| ByTransport            (* socket.io takes it, the application never sees it *)
| ByExpress (s : Served).

End Express.

Import Express.

(* ===================================================================== *)
(** ** What the program is linked against *)
(* ===================================================================== *)

(** [./config]: only the values the three files read. *)
Record Config : Type := {
  DATABASE_URL : string;
  REDIS_HOST : string;
  CLIENT_URL : string;
  NODE_ENV : string;
  SECRET_KEY_ONE : string;
  SECRET_KEY_TWO : string
}.

Record CookieSessionOptions : Type := {
  cs_name : string;
  cs_keys : list string;
  cs_maxAge : Z;
  cs_secure : bool
}.

Record CorsOptions : Type := {
  cors_origin : string;
  cors_credentials : bool;
  cors_optionsSuccessStatus : option Z;
  cors_methods : list string
}.

(** The third-party middleware factories, what Express, Node and
    socket.io decide by themselves (the final handler, how a registered
    route matches, whether a path decodes, whether a body goes out,
    whether socket.io takes a request), the routes of [./routes] and the
    process id.  Their bodies are not part of the repository's sources:
    the program is modelled for every choice of them. *)
Record Libraries : Type := {
  cookieSession : CookieSessionOptions -> RequestHandler;
  hpp : RequestHandler;
  helmet : RequestHandler;
  cors : CorsOptions -> RequestHandler;
  compression : RequestHandler;
  json_parser : string -> RequestHandler;          (* json({ limit }) *)
  urlencoded : bool -> string -> RequestHandler;   (* urlencoded({ extended, limit }) *)
  finalhandler : option IErrorResponse -> Request -> Reply;
  route_match : option string -> Pattern -> Request -> Match;  (* Express's route matching *)
  star_decodes : Request -> bool;                  (* decodeURIComponent on the path *)
  sends_body : Request -> Z -> bool;               (* Express and Node on bodies *)
  transport_takes : Request -> bool;               (* socket.io answers the request itself *)
  aplicationRoutes : list Layer;                   (* what aplicationRoutes(app) registers *)
  process_pid : Z
}.

(* ===================================================================== *)
(** ** The process *)
(* ===================================================================== *)

Definition PromiseId : Type := nat.
Definition ClientId : Type := nat.
Definition SocketId : Type := nat.

Inductive Result : Type :=
| Fulfilled
| Rejected (reason : IErrorResponse).

(** Functions of the program that are handed to an event emitter. *)
Inductive Callback : Type :=
| CbConnect.   (* the closure [connect] of setupDatabase *)

(** What the program attached to a promise it is waiting for. *)
Inductive Reaction : Type :=
| ThenCatchConnect                 (* .then(..).catch(..) on mongoose.connect *)
| PromiseAllInput (c : ClientId).  (* c.connect(), an input of Promise.all *)

(** The calls the process makes on the outside world, in the order it
    makes them. *)
Inductive Action : Type :=
| ValidateConfig
| MongooseConnect (url : string) (p : PromiseId)
| OnDisconnected (cb : Callback)
| NewExpress
| AppRegister (position : nat)
| NewHttpServer
| NewSocketServer (origin : string)
| CreateClient (c : ClientId) (url : string)
| Duplicate (from c : ClientId)
| ClientConnect (c : ClientId) (p : PromiseId)
| IoAdapter (pub sub : ClientId)
| Listen (port : Z)
| Logged (entry : LogEntry)
| ProcessExit (code : Z).

Inductive ClientState : Type := Idle | Connecting | Ready | Failed.

Record RedisClient : Type := {
  client_url : string;
  client_state : ClientState
}.

Inductive HttpState : Type :=
| NoServer
| Created
| Binding (port : Z)   (* listen() called, 'listening' not yet emitted *)
| Bound (port : Z).

Record Socket : Type := {
  socket_id : SocketId;
  socket_handlers : list (string * Callback)
}.

Record SocketServer : Type := {
  io_origin : string;
  io_adapter : option (ClientId * ClientId);   (* createAdapter(pub, sub) *)
  io_listeners : list (string * Callback);     (* io.on(event, cb) *)
  io_sockets : list Socket
}.

(** The async function [startServer]: where it is. *)
Inductive StartServer : Type :=
| NotCalled
| Suspended (awaiting : list PromiseId) (pubClient subClient : ClientId)
    (* inside createSocketIO, at [await Promise.all([..])] *)
| Returned   (* the try block ran to its end *)
| Caught.    (* the catch block ran *)

Record World : Type := {
  trace : list Action;
  exited : option Z;
  next_promise : PromiseId;
  pending : gmap nat Reaction;
  disconnected_listeners : list Callback;
  app : list Layer;
  clients : list RedisClient;
  http : HttpState;
  io : option SocketServer;
  frame : StartServer
}.

Definition boot_world : World :=
  {| trace := []; exited := None; next_promise := 0%nat; pending := ∅;
     disconnected_listeners := []; app := []; clients := [];
     http := NoServer; io := None; frame := NotCalled |}.

Definition set_trace (f : list Action -> list Action) (w : World) : World :=
  {| trace := f (trace w); exited := exited w; next_promise := next_promise w;
     pending := pending w; disconnected_listeners := disconnected_listeners w;
     app := app w; clients := clients w; http := http w; io := io w;
     frame := frame w |}.

Definition set_exited (c : option Z) (w : World) : World :=
  {| trace := trace w; exited := c; next_promise := next_promise w;
     pending := pending w; disconnected_listeners := disconnected_listeners w;
     app := app w; clients := clients w; http := http w; io := io w;
     frame := frame w |}.

Definition set_next_promise (n : PromiseId) (w : World) : World :=
  {| trace := trace w; exited := exited w; next_promise := n;
     pending := pending w; disconnected_listeners := disconnected_listeners w;
     app := app w; clients := clients w; http := http w; io := io w;
     frame := frame w |}.

Definition set_pending (f : gmap nat Reaction -> gmap nat Reaction) (w : World) : World :=
  {| trace := trace w; exited := exited w; next_promise := next_promise w;
     pending := f (pending w); disconnected_listeners := disconnected_listeners w;
     app := app w; clients := clients w; http := http w; io := io w;
     frame := frame w |}.

Definition set_disconnected_listeners (f : list Callback -> list Callback) (w : World) : World :=
  {| trace := trace w; exited := exited w; next_promise := next_promise w;
     pending := pending w; disconnected_listeners := f (disconnected_listeners w);
     app := app w; clients := clients w; http := http w; io := io w;
     frame := frame w |}.

Definition set_app (f : list Layer -> list Layer) (w : World) : World :=
  {| trace := trace w; exited := exited w; next_promise := next_promise w;
     pending := pending w; disconnected_listeners := disconnected_listeners w;
     app := f (app w); clients := clients w; http := http w; io := io w;
     frame := frame w |}.

Definition set_clients (f : list RedisClient -> list RedisClient) (w : World) : World :=
  {| trace := trace w; exited := exited w; next_promise := next_promise w;
     pending := pending w; disconnected_listeners := disconnected_listeners w;
     app := app w; clients := f (clients w); http := http w; io := io w;
     frame := frame w |}.

Definition set_http (h : HttpState) (w : World) : World :=
  {| trace := trace w; exited := exited w; next_promise := next_promise w;
     pending := pending w; disconnected_listeners := disconnected_listeners w;
     app := app w; clients := clients w; http := h; io := io w;
     frame := frame w |}.

Definition set_io (f : option SocketServer -> option SocketServer) (w : World) : World :=
  {| trace := trace w; exited := exited w; next_promise := next_promise w;
     pending := pending w; disconnected_listeners := disconnected_listeners w;
     app := app w; clients := clients w; http := http w; io := f (io w);
     frame := frame w |}.

Definition set_frame (fr : StartServer) (w : World) : World :=
  {| trace := trace w; exited := exited w; next_promise := next_promise w;
     pending := pending w; disconnected_listeners := disconnected_listeners w;
     app := app w; clients := clients w; http := http w; io := io w;
     frame := fr |}.

(** *** The monad of synchronous code

    A computation reads and updates the process; [None] as result means
    that the process was terminated on the way ([process.exit] does not
    return), and then nothing after it runs. *)
Definition M (A : Type) : Type := World -> option A * World.

Definition ret {A} (a : A) : M A := fun w => (Some a, w).

Definition bind {A B} (m : M A) (k : A -> M B) : M B :=
  fun w =>
    match m w with
    | (Some a, w') => k a w'
    | (None, w') => (None, w')
    end.

Declare Scope js_scope.
Delimit Scope js_scope with js.
Notation "x <- m ;; k" := (bind m (fun x => k))
  (at level 100, m at next level, right associativity) : js_scope.
Notation "m ;; k" := (bind m (fun _ => k))
  (at level 100, right associativity) : js_scope.
Local Open Scope js_scope.

Definition modify (f : World -> World) : M unit := fun w => (Some tt, f w).
Definition gets {A} (f : World -> A) : M A := fun w => (Some (f w), w).

Definition call (a : Action) : M unit := modify (set_trace (fun t => t ++ [a])).

Definition log (who : LoggerName) (lvl : Level) (what : LogPayload) : M unit :=
  call (Logged {| logger := who; level := lvl; payload := what |}).

(** [log.info(..)] and [log.error(..)] of the logger [who] *)
Definition log_info (who : LoggerName) (what : LogPayload) : M unit := log who Info what.
Definition log_error (who : LoggerName) (what : LogPayload) : M unit := log who Error what.

(** [process.exit(code)] *)
Definition process_exit {A} (code : Z) : M A :=
  fun w => (None, set_exited (Some code) (set_trace (fun t => t ++ [ProcessExit code]) w)).

Definition new_promise : M PromiseId :=
  p <- gets next_promise ;;
  modify (set_next_promise (S p)) ;;
  ret p.

(** Attaching a reaction to a promise that an outside call returned. *)
Definition subscribe (p : PromiseId) (rx : Reaction) : M unit :=
  modify (set_pending (insert p rx)).

Fixpoint for_each {A} (l : list A) (f : A -> M unit) : M unit :=
  match l with
  | [] => ret tt
  | x :: rest => f x ;; for_each rest f
  end.

(** *** The outside calls the program makes *)

(** [mongoose.connect(url)]: starts an attempt, returns its promise. *)
Definition mongoose_connect (url : string) : M PromiseId :=
  p <- new_promise ;;
  call (MongooseConnect url p) ;;
  ret p.

(** [mongoose.connection.on('disconnected', cb)] *)
Definition mongoose_connection_on_disconnected (cb : Callback) : M unit :=
  call (OnDisconnected cb) ;;
  modify (set_disconnected_listeners (fun l => l ++ [cb])).

(** [express()] *)
Definition express : M unit :=
  call NewExpress ;;
  modify (set_app (fun _ => [])).

(** [app.use(..)], [app.all(..)]: the layer goes to the end of the stack. *)
Definition app_register (l : Layer) : M unit :=
  n <- gets (fun w => length (app w)) ;;
  call (AppRegister n) ;;
  modify (set_app (fun stack => stack ++ [l])).

(** [new http.Server(app)] *)
Definition new_http_Server : M unit :=
  call NewHttpServer ;;
  modify (set_http Created).

(** [new Server(httpServer, { cors: { origin, methods } })] *)
Definition new_Server (origin : string) : M unit :=
  call (NewSocketServer origin) ;;
  modify (set_io (fun _ => Some {| io_origin := origin; io_adapter := None;
                                   io_listeners := []; io_sockets := [] |})).

(** [createClient({ url })]: a new handle. *)
Definition createClient (url : string) : M ClientId :=
  c <- gets (fun w => length (clients w)) ;;
  call (CreateClient c url) ;;
  modify (set_clients (fun l => l ++ [{| client_url := url; client_state := Idle |}])) ;;
  ret c.

(** [c.duplicate()]: another new handle, with the options of [c]. *)
Definition duplicate (c : ClientId) : M ClientId :=
  url <- gets (fun w => from_option client_url "" (clients w !! c)) ;;
  d <- gets (fun w => length (clients w)) ;;
  call (Duplicate c d) ;;
  modify (set_clients (fun l => l ++ [{| client_url := url; client_state := Idle |}])) ;;
  ret d.

Definition mark_client (c : ClientId) (st : ClientState) (w : World) : World :=
  set_clients (alter (fun cl => {| client_url := client_url cl; client_state := st |}) c) w.

Definition set_client_state (c : ClientId) (st : ClientState) : M unit :=
  modify (mark_client c st).

(** [c.connect()]: starts connecting, returns the promise. *)
Definition redis_connect (c : ClientId) : M PromiseId :=
  p <- new_promise ;;
  call (ClientConnect c p) ;;
  set_client_state c Connecting ;;
  ret p.

(** [io.adapter(createAdapter(pub, sub))] *)
Definition install_adapter (pub sub : ClientId) (s : SocketServer) : SocketServer :=
  {| io_origin := io_origin s; io_adapter := Some (pub, sub);
     io_listeners := io_listeners s; io_sockets := io_sockets s |}.

Definition io_adapter_install (pub sub : ClientId) : M unit :=
  call (IoAdapter pub sub) ;;
  modify (set_io (fmap (install_adapter pub sub))).

(** A socket that socket.io has accepted; it has no handlers of its own
    until a 'connection' listener gives it some. *)
Definition add_socket (s : SocketId) (srv : SocketServer) : SocketServer :=
  {| io_origin := io_origin srv; io_adapter := io_adapter srv;
     io_listeners := io_listeners srv;
     io_sockets := io_sockets srv ++ [{| socket_id := s; socket_handlers := [] |}] |}.

(** [httpServer.listen(port, cb)]; [cb] runs on 'listening'. *)
Definition listen (port : Z) : M unit :=
  call (Listen port) ;;
  modify (set_http (Binding port)).

(* ===================================================================== *)
(** ** The program *)
(* ===================================================================== *)

Definition SERVER_PORT : Z := 6000.
Definition HTTP_STATUS_NOT_FOUND : Z := 404.

Section Program.

Variable config : Config.
Variable lib : Libraries.

(** *** setupDatabase *)

(** [connect], up to the point where the promise chain is built. *)
Definition connect : M unit :=
  p <- mongoose_connect (DATABASE_URL config) ;;
  subscribe p ThenCatchConnect.

(** The chain [.then(..).catch(..)] of [connect], when its promise
    settles.  [log.info] does not throw, so the catch handler runs for a
    rejected connect only. *)
Definition connect_settled (r : Result) : M unit :=
  match r with
  | Fulfilled =>
      log_info setupDatabase (Text "Succesfully connected to database.")
  | Rejected err =>
      log_error setupDatabase (TextAnd "Error connecting to database" err) ;;
      process_exit 1
  end.

Definition databaseConnection : M unit :=
  connect ;;
  mongoose_connection_on_disconnected CbConnect.

Definition run_callback (cb : Callback) : M unit :=
  match cb with
  | CbConnect => connect
  end.

(** *** ChattyServer *)

Definition securityMiddleware : M unit :=
  app_register (use (cookieSession lib
    {| cs_name := "session";
       cs_keys := [SECRET_KEY_ONE config; SECRET_KEY_TWO config];
       cs_maxAge := 24 * 7 * 3600000;
       cs_secure := negb (String.eqb (NODE_ENV config) "development") |})) ;;
  app_register (use (hpp lib)) ;;
  app_register (use (helmet lib)) ;;
  app_register (use (cors lib
    {| cors_origin := CLIENT_URL config;
       cors_credentials := true;
       cors_optionsSuccessStatus := Some 200;
       cors_methods := ["GET"; "POST"; "PUT"; "DELETE"; "OPTIONS"] |})).

Definition standardMiddleware : M unit :=
  app_register (use (compression lib)) ;;
  app_register (use (json_parser lib "50mb")) ;;
  app_register (use (urlencoded lib true "50mb")).

Definition routeMiddleware : M unit :=
  for_each (aplicationRoutes lib) app_register.

(** The handler of [app.all('*', ..)] *)
Definition notFoundHandler : RequestHandler :=
  fun req res =>
    let res404 := status HTTP_STATUS_NOT_FOUND res in
    after_send
      (json (sends_body lib)
            (JObj [("message", JStr (originalUrl req +:+ " not found"))]) req res404)
      res404 [] Stop.

(** The handler of four parameters given to [app.use] *)
Definition errorHandler : ErrorRequestHandler :=
  fun error req res =>
    let logged := [{| logger := setupServer; level := Error;
                      payload := Thrown error |}] in
    match instanceof_CustomError error with
    | Some e =>
        let res_e := status (statusCode e) res in
        after_send (json (sends_body lib) (serializeErrors e) req res_e)
                   res_e logged NextOk
    | None => {| h_res := res; h_log := logged; h_next := NextOk |}
    end.

Definition globalErrorHandler : M unit :=
  app_register (all Star notFoundHandler) ;;
  app_register (use_error errorHandler).

(** [createSocketIO], up to its [await].  Both [connect()] calls are
    made, then the function waits for [Promise.all] of the two
    promises. *)
Definition createSocketIO : M unit :=
  new_Server (CLIENT_URL config) ;;
  pubClient <- createClient (REDIS_HOST config) ;;
  subClient <- duplicate pubClient ;;
  p1 <- redis_connect pubClient ;;
  p2 <- redis_connect subClient ;;
  subscribe p1 (PromiseAllInput pubClient) ;;
  subscribe p2 (PromiseAllInput subClient) ;;
  modify (set_frame (Suspended [p1; p2] pubClient subClient)).

(** [createSocketIO] after its [await]. *)
Definition createSocketIO_resumed (pubClient subClient : ClientId) : M unit :=
  io_adapter_install pubClient subClient.

Definition socketIOConnections : M unit := ret tt.

Definition startHttpServer : M unit :=
  log_info setupServer
    (Text ("Server has started with process " +:+ pretty (process_pid lib))) ;;
  listen SERVER_PORT.

(** The callback given to [listen]. *)
Definition listening_callback : M unit :=
  log_info setupServer (Text ("Server running on port: " +:+ pretty SERVER_PORT)).

(** [startServer], up to the [await] inside the try block. *)
Definition startServer : M unit :=
  new_http_Server ;;
  createSocketIO.

(** The rest of the try block, once [createSocketIO] has returned. *)
Definition startServer_resumed (pubClient subClient : ClientId) : M unit :=
  createSocketIO_resumed pubClient subClient ;;
  socketIOConnections ;;
  startHttpServer ;;
  modify (set_frame Returned).

(** The catch block. *)
Definition startServer_catch (err : IErrorResponse) : M unit :=
  modify (set_frame Caught) ;;
  log_error setupServer (Thrown err).

Definition start : M unit :=
  securityMiddleware ;;
  standardMiddleware ;;
  routeMiddleware ;;
  globalErrorHandler ;;
  startServer.

(** *** Application *)

Definition loadConfig : M unit := call ValidateConfig.

Definition initialize : M unit :=
  loadConfig ;;
  databaseConnection ;;
  express ;;
  start.

(** The process once the synchronous part of [application.initialize()]
    has run. *)
Definition started : World := snd (initialize boot_world).

(** *** The event loop *)

Inductive Event : Type :=
| Settled (p : PromiseId) (r : Result)  (* a promise of mongoose or redis settles *)
| Disconnected                          (* mongoose.connection emits 'disconnected' *)
| Listening                             (* the http server emits 'listening' *)
| Connection (s : SocketId).            (* socket.io accepts a connection *)

(** [Promise.all]: an input was fulfilled or rejected. *)
Definition promise_all_settled (p : PromiseId) (r : Result) : M unit :=
  fr <- gets frame ;;
  match fr with
  | Suspended awaiting pubClient subClient =>
      match r with
      | Fulfilled =>
          match filter (fun q => q ≠ p) awaiting with
          | [] => startServer_resumed pubClient subClient
          | rest => modify (set_frame (Suspended rest pubClient subClient))
          end
      | Rejected err => startServer_catch err
      end
  | _ => ret tt
  end.

Definition accept (s : SocketId) : M unit :=
  server <- gets io ;;
  match server with
  | None => ret tt
  | Some srv =>
      modify (set_io (fun _ => Some (add_socket s srv))) ;;
      for_each (filter (fun l => l.1 = "connection") (io_listeners srv))
               (fun l => run_callback l.2)
  end.

Definition react (ev : Event) : M unit :=
  match ev with
  | Settled p r =>
      rx <- gets (fun w => pending w !! p) ;;
      match rx with
      | None => ret tt
      | Some rx =>
          modify (set_pending (delete p)) ;;
          match rx with
          | ThenCatchConnect => connect_settled r
          | PromiseAllInput c =>
              set_client_state c (match r with Fulfilled => Ready | Rejected _ => Failed end) ;;
              promise_all_settled p r
          end
      end
  | Disconnected =>
      listeners <- gets disconnected_listeners ;;
      for_each listeners run_callback
  | Listening =>
      h <- gets http ;;
      match h with
      | Binding port => modify (set_http (Bound port)) ;; listening_callback
      | _ => ret tt
      end
  | Connection s =>
      h <- gets http ;;
      match h with
      | Bound _ => accept s
      | _ => ret tt
      end
  end.

(** A terminated process reacts to nothing. *)
Definition step (ev : Event) (w : World) : World :=
  match exited w with
  | Some _ => w
  | None => snd (react ev w)
  end.

Fixpoint run (schedule : list Event) (w : World) : World :=
  match schedule with
  | [] => w
  | ev :: rest => run rest (step ev w)
  end.

(** The events of a schedule that reach the process while it runs. *)
Fixpoint observed (schedule : list Event) (w : World) : list Event :=
  match schedule with
  | [] => []
  | ev :: rest =>
      match exited w with
      | Some _ => []
      | None => ev :: observed rest (step ev w)
      end
  end.

(** One request at the http server.  socket.io, once attached to the
    server, takes the requests of its own path; the others go through
    the stack the program registered. *)
Definition express_serves (w : World) (req : Request) : Served :=
  serve (finalhandler lib) (route_match lib) (star_decodes lib) (app w) req.

Definition serve_request (w : World) (req : Request) : Answered :=
  match io w with
  | Some _ =>
      if transport_takes lib req then ByTransport
      else ByExpress (express_serves w req)
  | None => ByExpress (express_serves w req)
  end.

(** *** Names for what the statements below talk about *)

(** The seven handlers that [securityMiddleware] and
    [standardMiddleware] register, in that order. *)
Definition installed_middleware : list RequestHandler :=
  [ cookieSession lib
      {| cs_name := "session";
         cs_keys := [SECRET_KEY_ONE config; SECRET_KEY_TWO config];
         cs_maxAge := 24 * 7 * 3600000;
         cs_secure := negb (String.eqb (NODE_ENV config) "development") |};
    hpp lib;
    helmet lib;
    cors lib
      {| cors_origin := CLIENT_URL config;
         cors_credentials := true;
         cors_optionsSuccessStatus := Some 200;
         cors_methods := ["GET"; "POST"; "PUT"; "DELETE"; "OPTIONS"] |};
    compression lib;
    json_parser lib "50mb";
    urlencoded lib true "50mb" ].

(** The two layers that [globalErrorHandler] registers. *)
Definition terminal_stages : list Layer :=
  [all Star notFoundHandler; use_error errorHandler].

(** The calls of the synchronous part of start-up, in order. *)
Definition startup_calls : list Action :=
  [ValidateConfig;
   MongooseConnect (DATABASE_URL config) 0%nat;
   OnDisconnected CbConnect;
   NewExpress]
  ++ map AppRegister (seq 0 7)
  ++ map AppRegister (seq 7 (length (aplicationRoutes lib)))
  ++ [AppRegister (7 + length (aplicationRoutes lib));
      AppRegister (8 + length (aplicationRoutes lib));
      NewHttpServer;
      NewSocketServer (CLIENT_URL config);
      CreateClient 0%nat (REDIS_HOST config);
      Duplicate 0%nat 1%nat;
      ClientConnect 0%nat 1%nat;
      ClientConnect 1%nat 2%nat].

End Program.

(** The log entries the program writes. *)
Definition connected_entry : Action :=
  Logged {| logger := setupDatabase; level := Info;
            payload := Text "Succesfully connected to database." |}.

Definition connect_failed_entry (reason : IErrorResponse) : Action :=
  Logged {| logger := setupDatabase; level := Error;
            payload := TextAnd "Error connecting to database" reason |}.

Definition bridge_failed_entry (reason : IErrorResponse) : Action :=
  Logged {| logger := setupServer; level := Error; payload := Thrown reason |}.

Definition server_started_entry (lib : Libraries) : Action :=
  Logged {| logger := setupServer; level := Info;
            payload := Text ("Server has started with process "
                             +:+ pretty (process_pid lib)) |}.

Definition server_running_entry : Action :=
  Logged {| logger := setupServer; level := Info;
            payload := Text ("Server running on port: " +:+ pretty SERVER_PORT) |}.

(** The promises of the synchronous part: the first storage attempt and
    the two broker connections. *)
Definition storage_promise : PromiseId := 0%nat.
Definition pub_promise : PromiseId := 1%nat.
Definition sub_promise : PromiseId := 2%nat.

(** A middleware is transparent for a request when it hands the request
    on with [next()] and sends nothing. *)
Definition passes_on (h : RequestHandler) (req : Request) : Prop :=
  forall res, res_sent res = None ->
    h_next (h req res) = NextOk /\ res_sent (h_res (h req res)) = None.

(** How promise [p] settled in a schedule: its first settlement. *)
Fixpoint first_settle (p : PromiseId) (schedule : list Event) : option Result :=
  match schedule with
  | [] => None
  | Settled q r :: rest => if decide (q = p) then Some r else first_settle p rest
  | _ :: rest => first_settle p rest
  end.

Definition fulfilled_in (p : PromiseId) (schedule : list Event) : Prop :=
  first_settle p schedule = Some Fulfilled.

Definition rejected_in (p : PromiseId) (schedule : list Event) : Prop :=
  exists reason, first_settle p schedule = Some (Rejected reason).

Fixpoint count_if {A} (f : A -> bool) (l : list A) : nat :=
  match l with
  | [] => 0%nat
  | x :: rest => ((if f x then 1 else 0) + count_if f rest)%nat
  end.

Definition is_attempt (a : Action) : bool :=
  match a with MongooseConnect _ _ => true | _ => false end.

Definition is_disconnect (ev : Event) : bool :=
  match ev with Disconnected => true | _ => false end.

(** Connect attempts made so far, and disconnect events of a schedule. *)
Definition attempts (w : World) : nat := count_if is_attempt (trace w).
Definition disconnects (schedule : list Event) : nat := count_if is_disconnect schedule.

Definition listen_called (w : World) : Prop :=
  exists port, In (Listen port) (trace w).

Definition adapter_of (w : World) : option (ClientId * ClientId) :=
  io w ≫= io_adapter.

Definition url_of (w : World) (c : ClientId) : option string :=
  client_url <$> clients w !! c.

(* ===================================================================== *)
(** ** What stays true while the process runs *)
(* ===================================================================== *)

(** Where [startServer] is, given how the two broker promises settled:
    [Promise.all] is fulfilled when both are, and rejected by the first
    rejection. *)
Definition expected_frame (pub sub : option Result) : StartServer :=
  match pub, sub with
  | Some (Rejected _), _ => Caught
  | _, Some (Rejected _) => Caught
  | Some Fulfilled, Some Fulfilled => Returned
  | Some Fulfilled, None => Suspended [sub_promise] 0%nat 1%nat
  | None, Some Fulfilled => Suspended [pub_promise] 0%nat 1%nat
  | None, None => Suspended [pub_promise; sub_promise] 0%nat 1%nat
  end.

Definition expected_state (r : option Result) : ClientState :=
  match r with
  | None => Connecting
  | Some Fulfilled => Ready
  | Some (Rejected _) => Failed
  end.

Definition unsettled {A} (r : option Result) (rx : A) : option A :=
  match r with
  | None => Some rx
  | Some _ => None
  end.

(** The calls that only the resumed [startServer] makes. *)
Definition bridge_call (a : Action) : bool :=
  match a with
  | IoAdapter _ _ | Listen _ => true
  | _ => false
  end.

Record Inv (config : Config) (lib : Libraries)
    (storage pub sub : option Result) (w : World) : Prop := {
  inv_next : (3 <= next_promise w)%nat;
  inv_storage : pending w !! storage_promise = unsettled storage ThenCatchConnect;
  inv_pub : pending w !! pub_promise = unsettled pub (PromiseAllInput 0%nat);
  inv_sub : pending w !! sub_promise = unsettled sub (PromiseAllInput 1%nat);
  inv_inputs : forall p c,
    pending w !! p = Some (PromiseAllInput c) -> p = pub_promise \/ p = sub_promise;
  inv_fresh : forall p, (next_promise w <= p)%nat -> pending w !! p = None;
  inv_frame : frame w = expected_frame pub sub;
  inv_listeners : disconnected_listeners w = [CbConnect];
  inv_app : app w = app (started config lib);
  inv_clients :
    clients w =
      [{| client_url := REDIS_HOST config; client_state := expected_state pub |};
       {| client_url := REDIS_HOST config; client_state := expected_state sub |}];
  inv_io : exists sockets,
    io w = Some {| io_origin := CLIENT_URL config;
                   io_adapter := match expected_frame pub sub with
                                 | Returned => Some (0%nat, 1%nat)
                                 | _ => None
                                 end;
                   io_listeners := [];
                   io_sockets := sockets |}
    /\ Forall (fun s => socket_handlers s = []) sockets;
  inv_http :
    match expected_frame pub sub with
    | Returned => http w = Binding SERVER_PORT \/ http w = Bound SERVER_PORT
    | _ => http w = Created
    end;
  inv_prefix : exists rest, trace w = startup_calls config lib ++ rest;
  inv_quiet : expected_frame pub sub <> Returned ->
    Forall (fun a => bridge_call a = false) (trace w);
  inv_order : expected_frame pub sub = Returned ->
    exists before after,
      trace w = before ++ [IoAdapter 0%nat 1%nat; server_started_entry lib;
                           Listen SERVER_PORT] ++ after;
  inv_caught : expected_frame pub sub = Caught ->
    exists reason, In (bridge_failed_entry reason) (trace w);
  inv_exit : exited w = None \/ exited w = Some 1
}.

(** The invariant, for the process that has observed the events [obs]. *)
Definition Invariant (config : Config) (lib : Libraries)
    (obs : list Event) (w : World) : Prop :=
  Inv config lib (first_settle storage_promise obs)
    (first_settle pub_promise obs) (first_settle sub_promise obs) w.

(* ===================================================================== *)
(** ** A concrete deployment, to run the model on *)
(* ===================================================================== *)

Module Sample.

Definition config : Config :=
  {| DATABASE_URL := "mongodb://127.0.0.1:27017/chatty";
     REDIS_HOST := "redis://127.0.0.1:6379";
     CLIENT_URL := "http://localhost:3000";
     NODE_ENV := "development";
     SECRET_KEY_ONE := "one";
     SECRET_KEY_TWO := "two" |}.

Definition pass : RequestHandler :=
  fun _ res => {| h_res := res; h_log := []; h_next := NextOk |}.

(** What the libraries decide, for the sample requests: a body goes
    out unless the request is a HEAD or the status is 204 or 304; a
    path decodes unless an escape is incomplete; a route matches its
    verb (a GET route serves HEAD too) and its path, a mount point the
    paths below it; socket.io takes the requests under its own path;
    the final handler answers 404 when no error is in flight, 400 to a
    path that does not decode and 500 to any other error. *)
Definition body_allowed : Request -> Z -> bool :=
  fun req code =>
    negb (String.eqb (method req) "HEAD")
    && negb (code =? 204) && negb (code =? 304).

Fixpoint path_of (url : string) : string :=
  match url with
  | EmptyString => EmptyString
  | String c rest =>
      if Ascii.eqb c "?"%char then EmptyString else String c (path_of rest)
  end.

Definition is_hex (c : ascii) : bool :=
  let n := nat_of_ascii c in
  ((48 <=? n) && (n <=? 57) || (65 <=? n) && (n <=? 70)
   || (97 <=? n) && (n <=? 102))%nat.

Fixpoint escapes_complete (s : string) : bool :=
  match s with
  | EmptyString => true
  | String c rest =>
      if Ascii.eqb c "%"%char then
        match rest with
        | String a (String b _) => is_hex a && is_hex b && escapes_complete rest
        | _ => false
        end
      else escapes_complete rest
  end.

Definition path_decodes : Request -> bool :=
  fun req => escapes_complete (path_of (originalUrl req)).

Definition route_matcher : option string -> Pattern -> Request -> Match :=
  fun verb pat req =>
    let path := path_of (originalUrl req) in
    let verb_ok :=
      match verb with
      | None => true
      | Some v =>
          String.eqb v (method req)
          || String.eqb v "GET" && String.eqb (method req) "HEAD"
      end in
    let path_ok :=
      match pat with
      | Slash | Star => true
      | Exact p => String.eqb p path
      | Prefix p => String.eqb p path || String.prefix (p +:+ "/") path
      end in
    if verb_ok && path_ok then Matched else NoMatch.

Definition engine_takes : Request -> bool :=
  fun req => String.prefix "/socket.io/" (originalUrl req).

Definition final_handler : option IErrorResponse -> Request -> Reply :=
  fun err req =>
    let code :=
      match err with
      | None => 404
      | Some (Unhandled raw) =>
          if String.eqb raw "URIError: Failed to decode param" then 400 else 500
      | Some (IsCustomError _) => 500
      end in
    {| reply_status := code;
       reply_body :=
         if body_allowed req code
         then Some (JStr (match err with
                          | None => "Cannot " +:+ method req +:+ " "
                                    +:+ path_of (originalUrl req)
                          | Some _ => if code =? 400 then "Bad Request"
                                      else "Internal Server Error"
                          end))
         else None |}.

(** A route that answers 200, and one that raises a [CustomError]. *)
Definition health : RequestHandler :=
  fun req res =>
    after_send (json body_allowed (JObj [("status", JStr "ok")]) req (status 200 res))
               (status 200 res) [] Stop.

Definition bad_request : CustomError :=
  {| statusCode := 400; serializeErrors := JObj [("field", JStr "x")] |}.

Definition signup : RequestHandler :=
  fun _ res => {| h_res := res; h_log := [];
                  h_next := NextErr (IsCustomError bad_request) |}.

Definition lib_with (cors_factory : CorsOptions -> RequestHandler)
    (routes : list Layer) : Libraries :=
  {| cookieSession := fun _ => pass;
     hpp := pass;
     helmet := pass;
     cors := cors_factory;
     compression := pass;
     json_parser := fun _ => pass;
     urlencoded := fun _ _ => pass;
     finalhandler := final_handler;
     route_match := route_matcher;
     star_decodes := path_decodes;
     sends_body := body_allowed;
     transport_takes := engine_takes;
     aplicationRoutes := routes;
     process_pid := 4242 |}.

Definition lib : Libraries :=
  lib_with (fun _ => pass)
           [Handle (Some "GET") (Exact "/health") health;
            Handle (Some "POST") (Exact "/signup") signup].

Definition world : World := started config lib.

Definition refused : IErrorResponse := Unhandled "ECONNREFUSED".

(** A boot in which everything succeeds. *)
Definition good_boot : list Event :=
  [Settled storage_promise Fulfilled;
   Settled pub_promise Fulfilled;
   Settled sub_promise Fulfilled;
   Listening].

Definition booted : World := run config lib good_boot world.

(** After the boot: a disconnect whose reconnect attempt is refused,
    then another disconnect. *)
Definition reconnect_refused : list Event :=
  [Disconnected; Settled 3%nat (Rejected refused); Disconnected].

(** A boot in which the broker answers before the data store refuses. *)
Definition storage_refused_late : list Event :=
  [Settled pub_promise Fulfilled;
   Settled sub_promise Fulfilled;
   Listening;
   Settled storage_promise (Rejected refused)].

(** A boot in which the broker has answered and the data store has not. *)
Definition broker_first : list Event :=
  [Settled pub_promise Fulfilled; Settled sub_promise Fulfilled; Listening].


Definition signup_request : Request :=
  {| method := "POST"; originalUrl := "/signup" |}.

End Sample.


(* ===================================================================== *)
(** ** Counting what the process has done *)
(* ===================================================================== *)

#[global] Instance Reaction_eq_dec : EqDecision Reaction.
Proof. solve_decision. Defined.

Definition is_listen (a : Action) : bool :=
  match a with Listen _ => true | _ => false end.

Definition is_adapter (a : Action) : bool :=
  match a with IoAdapter _ _ => true | _ => false end.

Definition is_exit (a : Action) : bool :=
  match a with ProcessExit _ => true | _ => false end.

(** An entry of the logger [setupDatabase]: the outcome of a connect
    attempt, success or failure. *)
Definition is_outcome (a : Action) : bool :=
  match a with
  | Logged entry =>
      match logger entry with setupDatabase => true | setupServer => false end
  | _ => false
  end.

(** The entry that the callback of [listen] writes. *)
Definition is_running_entry (a : Action) : bool :=
  match a with
  | Logged entry =>
      match logger entry, level entry, payload entry with
      | setupServer, Info, Text msg => String.prefix "Server running on port: " msg
      | _, _, _ => false
      end
  | _ => false
  end.

(** The calls that are made after the synchronous part: connect attempts,
    log entries, the adapter, [listen] and [process.exit]. *)
Definition runtime_call (a : Action) : bool :=
  match a with
  | MongooseConnect _ _ | IoAdapter _ _ | Listen _ | Logged _ | ProcessExit _ => true
  | _ => false
  end.

Definition returned (w : World) : bool :=
  match frame w with Returned => true | _ => false end.

Definition bound (w : World) : bool :=
  match http w with Bound _ => true | _ => false end.

(** The connect attempts whose promise has not settled. *)
Definition waiting (w : World) : nat :=
  size (filter (fun kv : nat * Reaction => kv.2 = ThenCatchConnect) (pending w)).

Record Tally (config : Config) (lib : Libraries) (w : World) : Prop := {
  tally_listen : count_if is_listen (trace w) = Nat.b2n (returned w);
  tally_port : forall port, In (Listen port) (trace w) -> port = SERVER_PORT;
  tally_adapter : count_if is_adapter (trace w) = Nat.b2n (returned w);
  tally_running : count_if is_running_entry (trace w) = Nat.b2n (bound w);
  tally_exit :
    match exited w with
    | None => count_if is_exit (trace w) = 0%nat
    | Some _ =>
        exists t reason,
          trace w = t ++ [connect_failed_entry reason; ProcessExit 1]
          /\ count_if is_exit t = 0%nat
    end;
  tally_runtime : exists rest,
    trace w = startup_calls config lib ++ rest
    /\ Forall (fun a => runtime_call a = true) rest;
  tally_outcomes :
    attempts w = (count_if is_outcome (trace w) + waiting w)%nat
}.


(** A handler that answers [reply] and ends the request. *)
Definition answers (h : RequestHandler) (req : Request) (reply : Reply) : Prop :=
  forall res, res_sent res = None ->
    h_next (h req res) = Stop /\ res_sent (h_res (h req res)) = Some reply.


(** The reply that [res.status(code).json(body)] puts on the wire. *)
Definition json_reply (lib : Libraries) (req : Request) (code : Z) (body : Json) : Reply :=
  {| reply_status := code;
     reply_body := if sends_body lib req code then Some body else None |}.

(** Schedules used below on the sample deployment. *)
Definition sample_bridge_refused : list Event :=
  [Settled storage_promise Fulfilled;
   Settled pub_promise Fulfilled;
   Settled sub_promise (Rejected Sample.refused);
   Listening; Disconnected].

Definition sample_health_request : Request :=
  {| method := "GET"; originalUrl := "/health?probe=1" |}.










(** Errors whose status Node refuses, or that carries no body. *)
Definition sample_status_99 : CustomError :=
  {| statusCode := 99; serializeErrors := JObj [("field", JStr "x")] |}.


(** A response on which a reply has gone out already. *)
Definition sample_sent_response : Response :=
  {| res_statusCode := 200;
     res_sent := Some {| reply_status := 200; reply_body := Some (JStr "partial") |} |}.

(* ===================================================================== *)
(** ** The synchronous part of start-up, as one state *)
(* ===================================================================== *)

Section Startup.

Variable config : Config.
Variable lib : Libraries.

Lemma for_each_register (routes : list Layer) (w : World) :
  for_each routes app_register w =
    (Some tt,
     set_app (fun stack => stack ++ routes)
       (set_trace (fun t => t ++ map AppRegister (seq (length (app w)) (length routes))) w)).
Proof.
  revert w. induction routes as [|l routes IH]; intros w.
  - destruct w; cbn. unfold set_app, set_trace; cbn. by rewrite !app_nil_r.
  - cbn [for_each]. unfold bind at 1. cbn. rewrite IH. destruct w; cbn.
    unfold set_app, set_trace; cbn. rewrite length_app. cbn.
    rewrite <- !app_assoc. cbn. do 3 f_equal. by rewrite Nat.add_1_r.
Qed.

Lemma world_ext (w w' : World) :
  trace w = trace w' -> exited w = exited w' -> next_promise w = next_promise w' ->
  pending w = pending w' -> disconnected_listeners w = disconnected_listeners w' ->
  app w = app w' -> clients w = clients w' -> http w = http w' -> io w = io w' ->
  frame w = frame w' -> w = w'.
Proof. destruct w, w'; cbn; intros; by subst. Qed.

(** The process when [application.initialize()] returns: every call of
    the synchronous part has been made, three promises are pending and
    [startServer] is suspended. *)
Lemma started_eq :
  started config lib =
    {| trace := startup_calls config lib;
       exited := None;
       next_promise := 3%nat;
       pending := <[sub_promise := PromiseAllInput 1%nat]>
                    (<[pub_promise := PromiseAllInput 0%nat]>
                       (<[storage_promise := ThenCatchConnect]> ∅));
       disconnected_listeners := [CbConnect];
       app := map use (installed_middleware config lib)
              ++ aplicationRoutes lib ++ terminal_stages lib;
       clients := [{| client_url := REDIS_HOST config; client_state := Connecting |};
                   {| client_url := REDIS_HOST config; client_state := Connecting |}];
       http := Created;
       io := Some {| io_origin := CLIENT_URL config; io_adapter := None;
                     io_listeners := []; io_sockets := [] |};
       frame := Suspended [pub_promise; sub_promise] 0%nat 1%nat |}.
Proof.
  unfold started, initialize, start, routeMiddleware.
  unfold bind. cbn.
  rewrite for_each_register. cbn. rewrite !length_app. cbn.
  unfold modify, mark_client, startup_calls, terminal_stages.
  apply world_ext; cbn; try reflexivity.
  - rewrite <- !app_assoc. cbn. rewrite Nat.add_comm. reflexivity.
  - rewrite <- !app_assoc. reflexivity.
Qed.

End Startup.

(* ===================================================================== *)
(** ** One event, case by case *)
(* ===================================================================== *)

Section Reactions.

Variable config : Config.
Variable lib : Libraries.

Abbreviation react := (react config lib).
Abbreviation step := (step config lib).
Abbreviation run := (run config lib).
Abbreviation observed := (observed config lib).

Lemma react_unknown_promise w p r :
  pending w !! p = None -> react (Settled p r) w = (Some tt, w).
Proof. intros H. unfold react, bind, gets. by rewrite H. Qed.

Lemma react_connect_fulfilled w p :
  pending w !! p = Some ThenCatchConnect ->
  react (Settled p Fulfilled) w =
    (Some tt, set_trace (fun t => t ++ [connected_entry]) (set_pending (delete p) w)).
Proof. intros H. unfold react, bind, gets. by rewrite H. Qed.

Lemma react_connect_rejected w p reason :
  pending w !! p = Some ThenCatchConnect ->
  react (Settled p (Rejected reason)) w =
    (None, set_exited (Some 1)
             (set_trace (fun t => t ++ [ProcessExit 1])
                (set_trace (fun t => t ++ [connect_failed_entry reason])
                   (set_pending (delete p) w)))).
Proof. intros H. unfold react, bind, gets. by rewrite H. Qed.

Lemma react_input_ignored w p c r :
  pending w !! p = Some (PromiseAllInput c) ->
  match frame w with Suspended _ _ _ => False | _ => True end ->
  react (Settled p r) w =
    (Some tt, mark_client c (match r with Fulfilled => Ready | Rejected _ => Failed end)
                (set_pending (delete p) w)).
Proof.
  intros H Hf. unfold react, bind, gets. rewrite H. cbn.
  unfold promise_all_settled, bind, gets. cbn. by destruct (frame w).
Qed.

Lemma react_input_rejected w p c reason awaiting pub sub :
  pending w !! p = Some (PromiseAllInput c) ->
  frame w = Suspended awaiting pub sub ->
  react (Settled p (Rejected reason)) w =
    (Some tt, set_trace (fun t => t ++ [bridge_failed_entry reason])
                (set_frame Caught
                   (mark_client c Failed (set_pending (delete p) w)))).
Proof.
  intros H Hf. unfold react, bind, gets. rewrite H. cbn.
  unfold promise_all_settled, bind, gets. cbn. by rewrite Hf.
Qed.

Lemma react_input_fulfilled_more w p c awaiting pub sub q rest :
  pending w !! p = Some (PromiseAllInput c) ->
  frame w = Suspended awaiting pub sub ->
  filter (fun x => x ≠ p) awaiting = q :: rest ->
  react (Settled p Fulfilled) w =
    (Some tt, set_frame (Suspended (q :: rest) pub sub)
                (mark_client c Ready (set_pending (delete p) w))).
Proof.
  intros H Hf Hr. unfold react, bind, gets. rewrite H. cbn.
  unfold promise_all_settled, bind, gets. cbn. by rewrite Hf, Hr.
Qed.

Lemma react_input_fulfilled_last w p c awaiting pub sub :
  pending w !! p = Some (PromiseAllInput c) ->
  frame w = Suspended awaiting pub sub ->
  filter (fun x => x ≠ p) awaiting = [] ->
  react (Settled p Fulfilled) w =
    (Some tt,
     set_frame Returned
       (set_http (Binding SERVER_PORT)
          (set_trace (fun t => t ++ [Listen SERVER_PORT])
             (set_trace (fun t => t ++ [server_started_entry lib])
                (set_io (fmap (install_adapter pub sub))
                   (set_trace (fun t => t ++ [IoAdapter pub sub])
                      (mark_client c Ready (set_pending (delete p) w)))))))).
Proof.
  intros H Hf Hr. unfold react, bind, gets. rewrite H. cbn.
  unfold promise_all_settled, bind, gets. cbn. by rewrite Hf, Hr.
Qed.

Lemma react_disconnected w :
  disconnected_listeners w = [CbConnect] ->
  react Disconnected w =
    (Some tt,
     set_pending (insert (next_promise w) ThenCatchConnect)
       (set_trace (fun t => t ++ [MongooseConnect (DATABASE_URL config) (next_promise w)])
          (set_next_promise (S (next_promise w)) w))).
Proof. intros H. unfold react, bind, gets. by rewrite H. Qed.

Lemma react_listening_bind w port :
  http w = Binding port ->
  react Listening w =
    (Some tt, set_trace (fun t => t ++ [server_running_entry]) (set_http (Bound port) w)).
Proof. intros H. unfold react, bind, gets. by rewrite H. Qed.

Lemma react_listening_other w :
  match http w with Binding _ => False | _ => True end ->
  react Listening w = (Some tt, w).
Proof. intros H. unfold react, bind, gets. by destruct (http w). Qed.

Lemma react_connection_bound w s port srv :
  http w = Bound port ->
  io w = Some srv ->
  io_listeners srv = [] ->
  react (Connection s) w = (Some tt, set_io (fun _ => Some (add_socket s srv)) w).
Proof.
  intros H Hio Hl. unfold react, bind, gets. rewrite H. unfold accept, bind, gets.
  rewrite Hio, Hl. reflexivity.
Qed.

Lemma react_connection_unbound w s :
  match http w with Bound _ => False | _ => True end ->
  react (Connection s) w = (Some tt, w).
Proof. intros H. unfold react, bind, gets. by destruct (http w). Qed.

End Reactions.

(* ===================================================================== *)
(** ** Schedules *)
(* ===================================================================== *)

Section Schedules.

Variable config : Config.
Variable lib : Libraries.

Abbreviation react := (react config lib).
Abbreviation step := (step config lib).
Abbreviation run := (run config lib).
Abbreviation observed := (observed config lib).

Lemma run_app (a b : list Event) (w : World) : run (a ++ b) w = run b (run a w).
Proof. revert w. induction a as [|ev a IH]; intros w; cbn; [done | apply IH]. Qed.

Lemma step_exited (ev : Event) (w : World) (c : Z) :
  exited w = Some c -> step ev w = w.
Proof. intros H. unfold step. by rewrite H. Qed.

Lemma step_alive (ev : Event) (w : World) :
  exited w = None -> step ev w = snd (react ev w).
Proof. intros H. unfold step. by rewrite H. Qed.

Lemma run_exited (evs : list Event) (w : World) (c : Z) :
  exited w = Some c -> run evs w = w.
Proof.
  induction evs as [|ev evs IH]; intros H; cbn; [done |].
  rewrite (step_exited _ _ _ H). by apply IH.
Qed.

Lemma observed_snoc (evs : list Event) (ev : Event) (w : World) :
  observed (evs ++ [ev]) w =
    observed evs w ++ match exited (run evs w) with
                      | Some _ => []
                      | None => [ev]
                      end.
Proof.
  revert w. induction evs as [|e evs IH]; intros w; cbn.
  - by destruct (exited w).
  - destruct (exited w) eqn:Hx.
    + rewrite (step_exited _ _ _ Hx), (run_exited _ _ _ Hx), Hx. done.
    + cbn. by rewrite IH.
Qed.

Lemma observed_alive (evs : list Event) (w : World) :
  exited (run evs w) = None -> observed evs w = evs.
Proof.
  revert w. induction evs as [|e evs IH]; intros w H; cbn; [done |].
  destruct (exited w) eqn:Hx.
  - cbn in H. rewrite (step_exited _ _ _ Hx), (run_exited _ _ _ Hx) in H. congruence.
  - f_equal. by apply IH.
Qed.

Lemma run_observed (evs : list Event) (w : World) :
  run (observed evs w) w = run evs w.
Proof.
  revert w. induction evs as [|e evs IH]; intros w; cbn; [done |].
  destruct (exited w) eqn:Hx.
  - cbn. rewrite (step_exited _ _ _ Hx). symmetry. by eapply run_exited.
  - cbn. apply IH.
Qed.

Lemma first_settle_app (p : PromiseId) (a b : list Event) :
  first_settle p (a ++ b) =
    match first_settle p a with
    | Some r => Some r
    | None => first_settle p b
    end.
Proof.
  induction a as [|ev a IH]; cbn; [done |].
  destruct ev as [q r| | |s]; try apply IH.
  by destruct (decide (q = p)).
Qed.

Lemma count_if_app {A} (f : A -> bool) (a b : list A) :
  count_if f (a ++ b) = (count_if f a + count_if f b)%nat.
Proof. induction a as [|x a IH]; cbn; [done |]. rewrite IH. lia. Qed.

End Schedules.

(* ===================================================================== *)
(** ** The invariant holds at start-up and is kept by every event *)
(* ===================================================================== *)

Section Invariant.

Variable config : Config.
Variable lib : Libraries.

Abbreviation react := (react config lib).
Abbreviation step := (step config lib).
Abbreviation run := (run config lib).
Abbreviation observed := (observed config lib).
Abbreviation Inv := (Inv config lib).
Abbreviation Invariant := (Invariant config lib).

Lemma startup_calls_quiet :
  Forall (fun a => bridge_call a = false) (startup_calls config lib).
Proof.
  unfold startup_calls. rewrite !Forall_app. repeat split.
  - repeat constructor.
  - apply List.Forall_map, Forall_forall. by intros.
  - apply List.Forall_map, Forall_forall. by intros.
  - repeat constructor.
Qed.

#[local] Arguments startup_calls : simpl never.

Lemma inv_started : Invariant [] (started config lib).
Proof.
  unfold Invariant. rewrite started_eq. constructor; cbn; try done.
  - intros p c H. destruct (decide (p = sub_promise)) as [->|]; [by right |].
    rewrite lookup_insert_ne in H by done.
    destruct (decide (p = pub_promise)) as [->|]; [by left |].
    rewrite lookup_insert_ne in H by done.
    destruct (decide (p = storage_promise)) as [->|].
    + by rewrite lookup_insert_eq in H.
    + by rewrite lookup_insert_ne, lookup_empty in H.
  - intros p Hp. unfold sub_promise, pub_promise, storage_promise.
    rewrite !lookup_insert_ne by lia. apply lookup_empty.
  - by rewrite started_eq.
  - eexists. split; [reflexivity | constructor].
  - exists []. by rewrite app_nil_r.
  - intros _. apply startup_calls_quiet.
  - by left.
Qed.

Ltac open_inv I :=
  destruct I as [Hnext Hstorage Hpub Hsub Hinputs Hfresh Hframe Hlisteners
                 Happ Hclients Hio Hhttp Hprefix Hquiet Horder Hcaught Hexit].

Lemma unsettled_pending {A} (s : option Result) (rx ry : A) :
  unsettled s rx = Some ry -> s = None /\ rx = ry.
Proof. destruct s; cbn; intros H; [done | by inversion H]. Qed.

(** The facts about the trace survive calls that are not bridge calls. *)
Section Extend.
Variables (t new : list Action).
Hypothesis new_quiet : Forall (fun a => bridge_call a = false) new.

Lemma prefix_extend (s : list Action) :
  (exists rest, t = s ++ rest) -> exists rest, t ++ new = s ++ rest.
Proof. intros [rest ->]. exists (rest ++ new). by rewrite app_assoc. Qed.

Lemma quiet_extend :
  Forall (fun a => bridge_call a = false) t ->
  Forall (fun a => bridge_call a = false) (t ++ new).
Proof. intros H. by apply Forall_app. Qed.

Lemma order_extend (mid : list Action) :
  (exists before after, t = before ++ mid ++ after) ->
  exists before after, t ++ new = before ++ mid ++ after.
Proof.
  intros (before & after & ->). exists before, (after ++ new).
  by rewrite <- !app_assoc.
Qed.

Lemma caught_extend :
  (exists reason, In (bridge_failed_entry reason) t) ->
  exists reason, In (bridge_failed_entry reason) (t ++ new).
Proof. intros [reason H]. exists reason. apply in_or_app. by left. Qed.
End Extend.

Ltac quiet := repeat constructor.

Ltac trace_fields :=
  match goal with
  | |- exists rest, _ ++ _ = startup_calls _ _ ++ rest =>
      apply prefix_extend; assumption
  | |- _ -> Forall _ (_ ++ _) =>
      try (by (let H := fresh in intros H; apply quiet_extend; [quiet | auto]))
  | |- _ -> exists before after, _ ++ _ = before ++ _ =>
      try (by (let H := fresh in
               intros H; apply (order_extend _ _ [_; _; _]); auto))
  | |- _ -> exists reason, In (bridge_failed_entry reason) (_ ++ _) =>
      try (by (let H := fresh in intros H; apply caught_extend; auto))
  end.

Lemma delete_keeps_inputs (m : gmap nat Reaction) (p : PromiseId) :
  (forall q c, m !! q = Some (PromiseAllInput c) -> q = pub_promise \/ q = sub_promise) ->
  forall q c, delete p m !! q = Some (PromiseAllInput c) ->
              q = pub_promise \/ q = sub_promise.
Proof. intros H q c Hq. apply lookup_delete_Some in Hq as [_ Hq]. eauto. Qed.

Lemma delete_keeps_fresh (m : gmap nat Reaction) (p : PromiseId) (n : nat) :
  (forall q, (n <= q)%nat -> m !! q = None) ->
  forall q, (n <= q)%nat -> delete p m !! q = None.
Proof. intros H q Hq. apply lookup_delete_None. right. auto. Qed.

(** A storage attempt settles. *)
Lemma inv_connect_settled s0 s1 s2 w p r :
  Inv s0 s1 s2 w ->
  pending w !! p = Some ThenCatchConnect ->
  Inv (if decide (p = storage_promise) then Some r else s0) s1 s2
      (snd (react (Settled p r) w)).
Proof.
  intros I Hp.
  assert (p <> pub_promise) as Hp1.
  { intros ->. rewrite (inv_pub _ _ _ _ _ _ I) in Hp. by destruct s1. }
  assert (p <> sub_promise) as Hp2.
  { intros ->. rewrite (inv_sub _ _ _ _ _ _ I) in Hp. by destruct s2. }
  assert (delete p (pending w) !! storage_promise =
          unsettled (if decide (p = storage_promise) then Some r else s0)
                    ThenCatchConnect) as Hs.
  { destruct (decide (p = storage_promise)) as [->|Hne].
    - apply lookup_delete_eq.
    - rewrite lookup_delete_ne by done. apply I. }
  open_inv I.
  destruct r as [|reason].
  - rewrite react_connect_fulfilled by done.
    constructor; cbn; try done; try trace_fields;
      rewrite ?lookup_delete_ne by done; try done.
    + by apply delete_keeps_inputs.
    + by apply delete_keeps_fresh.
  - rewrite react_connect_rejected by done.
    constructor; cbn; try done; rewrite <- ?app_assoc; try trace_fields;
      rewrite ?lookup_delete_ne by done; try done.
    + by apply delete_keeps_inputs.
    + by apply delete_keeps_fresh.
    + by right.
Qed.

Ltac settle_fields :=
  constructor; cbn; try done; rewrite <- ?app_assoc; try trace_fields;
  rewrite ?lookup_delete_ne by done; try done;
  try (by apply delete_keeps_inputs);
  try (by apply delete_keeps_fresh);
  try apply lookup_delete_eq.

Ltac io_field :=
  match goal with
  | H : exists sockets, io _ = Some _ /\ _ |- _ =>
      let sockets := fresh "sockets" in
      let Hio := fresh "Hio" in
      let Hall := fresh "Hall" in
      destruct H as (sockets & Hio & Hall); rewrite Hio; by exists sockets
  end.

Ltac leftover w :=
  match goal with
  | H : clients w = _ |- alter _ _ (clients w) = _ => by rewrite H
  | |- exists sockets, _ /\ _ => io_field
  | |- _ \/ _ => by left
  | |- _ -> exists before after, _ =>
      intros _; exists (trace w), []; done
  | |- _ -> exists reason, In _ _ =>
      intros _; eexists; apply in_or_app; right; by left
  | H : _ -> Forall _ ?t |- _ -> Forall _ ?t => by intros _; apply H
  | |- _ -> Forall _ _ => by intros []
  end.

(** The publish-side connection settles. *)
Lemma inv_pub_settled s0 s1 s2 w c r :
  Inv s0 s1 s2 w ->
  pending w !! pub_promise = Some (PromiseAllInput c) ->
  Inv s0 (Some r) s2 (snd (react (Settled pub_promise r) w)).
Proof.
  intros I Hp.
  assert (s1 = None /\ PromiseAllInput 0%nat = PromiseAllInput c) as [-> Hc].
  { apply unsettled_pending. rewrite <- Hp. symmetry. apply I. }
  injection Hc as <-.
  open_inv I.
  destruct s2 as [[|reason2]|], r as [|reason];
    cbn [expected_frame expected_state unsettled] in *.
  - erewrite react_input_fulfilled_last by (try done; by rewrite Hframe).
    unfold mark_client. settle_fields; leftover w.
  - erewrite react_input_rejected by done.
    unfold mark_client. settle_fields; leftover w.
  - erewrite react_input_ignored by (try done; by rewrite Hframe).
    unfold mark_client. settle_fields; leftover w.
  - erewrite react_input_ignored by (try done; by rewrite Hframe).
    unfold mark_client. settle_fields; leftover w.
  - erewrite react_input_fulfilled_more by (try done; by rewrite Hframe).
    unfold mark_client. settle_fields; leftover w.
  - erewrite react_input_rejected by done.
    unfold mark_client. settle_fields; leftover w.
Qed.

(** The subscribe-side connection settles. *)
Lemma inv_sub_settled s0 s1 s2 w c r :
  Inv s0 s1 s2 w ->
  pending w !! sub_promise = Some (PromiseAllInput c) ->
  Inv s0 s1 (Some r) (snd (react (Settled sub_promise r) w)).
Proof.
  intros I Hp.
  assert (s2 = None /\ PromiseAllInput 1%nat = PromiseAllInput c) as [-> Hc].
  { apply unsettled_pending. rewrite <- Hp. symmetry. apply I. }
  injection Hc as <-.
  open_inv I.
  destruct s1 as [[|reason1]|], r as [|reason];
    cbn [expected_frame expected_state unsettled] in *.
  - erewrite react_input_fulfilled_last by (try done; by rewrite Hframe).
    unfold mark_client. settle_fields; leftover w.
  - erewrite react_input_rejected by done.
    unfold mark_client. settle_fields; leftover w.
  - erewrite react_input_ignored by (try done; by rewrite Hframe).
    unfold mark_client. settle_fields; leftover w.
  - erewrite react_input_ignored by (try done; by rewrite Hframe).
    unfold mark_client. settle_fields; leftover w.
  - erewrite react_input_fulfilled_more by (try done; by rewrite Hframe).
    unfold mark_client. settle_fields; leftover w.
  - erewrite react_input_rejected by done.
    unfold mark_client. settle_fields; leftover w.
Qed.

(** mongoose emits 'disconnected'. *)
Lemma inv_disconnected s0 s1 s2 w :
  Inv s0 s1 s2 w -> Inv s0 s1 s2 (snd (react Disconnected w)).
Proof.
  intros I. rewrite react_disconnected by apply I.
  open_inv I.
  settle_fields; unfold storage_promise, pub_promise, sub_promise in *;
    rewrite ?lookup_insert_ne by lia; try done.
  - lia.
  - intros p c [[_ ?]|[_ H]]%lookup_insert_Some; [done | by eapply Hinputs].
  - intros p Hp. rewrite lookup_insert_ne by lia. apply Hfresh. lia.
Qed.

(** The http server emits 'listening'. *)
Lemma inv_listening s0 s1 s2 w :
  Inv s0 s1 s2 w -> Inv s0 s1 s2 (snd (react Listening w)).
Proof.
  intros I. destruct (http w) as [| |port|port] eqn:Hh;
    try (by rewrite react_listening_other by (by rewrite Hh)).
  rewrite (react_listening_bind _ _ _ port) by done.
  open_inv I. settle_fields.
  destruct (expected_frame s1 s2); try congruence.
  destruct Hhttp as [H|H]; rewrite Hh in H; [injection H as -> | done]. by right.
Qed.

(** socket.io accepts a connection. *)
Lemma inv_connection s0 s1 s2 w s :
  Inv s0 s1 s2 w -> Inv s0 s1 s2 (snd (react (Connection s) w)).
Proof.
  intros I. destruct (http w) as [| |port|port] eqn:Hh;
    try (by rewrite react_connection_unbound by (by rewrite Hh)).
  destruct (inv_io _ _ _ _ _ _ I) as (sockets & Hsrv & Hall).
  erewrite react_connection_bound by done.
  open_inv I. settle_fields.
  eexists. split; [reflexivity |]. cbn. apply Forall_app. split; [done | by constructor].
Qed.

Lemma first_settle_snoc_settled (q : PromiseId) (obs : list Event) p r :
  first_settle q (obs ++ [Settled p r]) =
    match first_settle q obs with
    | Some x => Some x
    | None => if decide (p = q) then Some r else None
    end.
Proof. rewrite first_settle_app. cbn. done. Qed.

Lemma first_settle_snoc_other (q : PromiseId) (obs : list Event) ev :
  match ev with Settled _ _ => False | _ => True end ->
  first_settle q (obs ++ [ev]) = first_settle q obs.
Proof.
  intros H. rewrite first_settle_app.
  destruct ev; try done; by destruct (first_settle q obs).
Qed.

(** Every event that reaches the running process keeps the invariant. *)
Lemma invariant_react (obs : list Event) (w : World) (ev : Event) :
  Invariant obs w -> Invariant (obs ++ [ev]) (snd (react ev w)).
Proof.
  unfold Invariant. intros I. destruct ev as [p r| | |s].
  - rewrite !first_settle_snoc_settled.
    destruct (pending w !! p) as [[|c]|] eqn:Hp.
    + pose proof (inv_connect_settled _ _ _ _ _ r I Hp) as I'.
      assert (p <> pub_promise) as Hp1.
      { intros ->. rewrite (inv_pub _ _ _ _ _ _ I) in Hp.
        by destruct (first_settle pub_promise obs). }
      assert (p <> sub_promise) as Hp2.
      { intros ->. rewrite (inv_sub _ _ _ _ _ _ I) in Hp.
        by destruct (first_settle sub_promise obs). }
      rewrite (decide_False (P := p = pub_promise)) by done.
      rewrite (decide_False (P := p = sub_promise)) by done.
      destruct (decide (p = storage_promise)) as [->|].
      * rewrite (inv_storage _ _ _ _ _ _ I) in Hp.
        apply unsettled_pending in Hp as [Hs _]. rewrite Hs in *.
        by destruct (first_settle pub_promise obs), (first_settle sub_promise obs).
      * by destruct (first_settle storage_promise obs),
          (first_settle pub_promise obs), (first_settle sub_promise obs).
    + destruct (inv_inputs _ _ _ _ _ _ I _ _ Hp) as [-> | ->].
      * pose proof (inv_pub_settled _ _ _ _ _ r I Hp) as I'.
        rewrite (inv_pub _ _ _ _ _ _ I) in Hp.
        apply unsettled_pending in Hp as [Hs _]. rewrite Hs in *.
        cbn. by destruct (first_settle storage_promise obs), (first_settle sub_promise obs).
      * pose proof (inv_sub_settled _ _ _ _ _ r I Hp) as I'.
        rewrite (inv_sub _ _ _ _ _ _ I) in Hp.
        apply unsettled_pending in Hp as [Hs _]. rewrite Hs in *.
        cbn. by destruct (first_settle storage_promise obs), (first_settle pub_promise obs).
    + rewrite react_unknown_promise by done. cbn.
      assert (forall q x, pending w !! q = unsettled (first_settle q obs) x ->
                match first_settle q obs with
                | Some y => Some y
                | None => if decide (p = q) then Some r else None
                end = first_settle q obs) as Hsame.
      { intros q x Hq. destruct (first_settle q obs); [done |].
        destruct (decide (p = q)) as [->|]; [| done]. cbn in Hq. congruence. }
      rewrite (Hsame _ _ (inv_storage _ _ _ _ _ _ I)),
        (Hsame _ _ (inv_pub _ _ _ _ _ _ I)), (Hsame _ _ (inv_sub _ _ _ _ _ _ I)).
      done.
  - rewrite !first_settle_snoc_other by done. by apply inv_disconnected.
  - rewrite !first_settle_snoc_other by done. by apply inv_listening.
  - rewrite !first_settle_snoc_other by done. by apply inv_connection.
Qed.

(** The invariant holds after every schedule, for the events that
    reached the process. *)
Lemma invariant_run (evs : list Event) :
  Invariant (observed evs (started config lib)) (run evs (started config lib)).
Proof.
  induction evs as [|ev evs IH] using rev_ind.
  - apply inv_started.
  - rewrite observed_snoc, run_app. cbn.
    destruct (exited (run evs (started config lib))) eqn:Hx.
    + rewrite (step_exited _ _ _ _ _ Hx). by rewrite app_nil_r.
    + rewrite step_alive by done. by apply invariant_react.
Qed.

End Invariant.

(* ===================================================================== *)
(** ** What one event adds to the trace *)
(* ===================================================================== *)

Section Traces.

Variable config : Config.
Variable lib : Libraries.

Abbreviation react := (react config lib).
Abbreviation step := (step config lib).
Abbreviation run := (run config lib).
Abbreviation observed := (observed config lib).
Abbreviation Invariant := (Invariant config lib).
Abbreviation started := (started config lib).

(** An event appends to the trace, and appends a connect attempt exactly
    when it is a disconnect. *)
Lemma react_trace (obs : list Event) (w : World) (ev : Event) :
  Invariant obs w ->
  exists new,
    trace (snd (react ev w)) = trace w ++ new
    /\ count_if is_attempt new = (if is_disconnect ev then 1 else 0)%nat.
Proof.
  intros I. destruct ev as [p r| | |s].
  - destruct (pending w !! p) as [[|c]|] eqn:Hp.
    + destruct r as [|reason].
      * rewrite react_connect_fulfilled by done. by eexists.
      * rewrite react_connect_rejected by done. cbn. rewrite <- app_assoc. by eexists.
    + destruct (frame w) as [|awaiting pub sub| |] eqn:Hf;
        try (rewrite (react_input_ignored _ _ _ _ c) by (try done; by rewrite Hf);
             exists []; by rewrite app_nil_r).
      destruct r as [|reason].
      * destruct (filter (fun x => x ≠ p) awaiting) as [|q rest] eqn:Hr.
        -- erewrite react_input_fulfilled_last by done. cbn.
           rewrite <- !app_assoc. by eexists.
        -- erewrite react_input_fulfilled_more by done. cbn.
           exists []. by rewrite app_nil_r.
      * erewrite react_input_rejected by done. by eexists.
    + rewrite react_unknown_promise by done. exists []. by rewrite app_nil_r.
  - rewrite react_disconnected by apply I. by eexists.
  - destruct (http w) as [| |port|port] eqn:Hh;
      try (rewrite react_listening_other by (by rewrite Hh);
           exists []; by rewrite app_nil_r).
    rewrite (react_listening_bind _ _ _ port) by done. by eexists.
  - destruct (http w) as [| |port|port] eqn:Hh;
      try (rewrite react_connection_unbound by (by rewrite Hh);
           exists []; by rewrite app_nil_r).
    destruct (inv_io _ _ _ _ _ _ I) as (sockets & Hio & Hall).
    erewrite react_connection_bound by done. exists []. by rewrite app_nil_r.
Qed.

Lemma run_started_app (pre evs : list Event) :
  run evs (run pre started) = run (pre ++ evs) started.
Proof. by rewrite run_app. Qed.

(** The trace only grows, and along a schedule it gains one connect
    attempt for every disconnect that reached the process. *)
Lemma run_trace (pre evs : list Event) :
  exists new,
    trace (run evs (run pre started)) = trace (run pre started) ++ new
    /\ count_if is_attempt new = disconnects (observed evs (run pre started)).
Proof.
  induction evs as [|ev evs IH] using rev_ind.
  - exists []. by rewrite app_nil_r.
  - destruct IH as (new & Ht & Hn).
    rewrite run_app, observed_snoc. cbn.
    destruct (exited (run evs (run pre started))) eqn:Hx.
    + rewrite (step_exited _ _ _ _ _ Hx), app_nil_r. by exists new.
    + rewrite step_alive by done.
      destruct (react_trace (observed (pre ++ evs) started)
                  (run evs (run pre started)) ev) as (more & Ht' & Hn').
      { rewrite run_started_app. apply invariant_run. }
      exists (new ++ more). split.
      * by rewrite Ht', Ht, app_assoc.
      * unfold disconnects. rewrite !count_if_app. cbn. unfold disconnects in Hn. lia.
Qed.

End Traces.

(* ===================================================================== *)
(** ** The terminal stages of the Express stack *)
(* ===================================================================== *)

Section Http.

Variable config : Config.
Variable lib : Libraries.

Abbreviation run := (run config lib).
Abbreviation started := (started config lib).
Abbreviation layer_match := (layer_match (route_match lib) (star_decodes lib)).
Abbreviation dispatch :=
  (dispatch (finalhandler lib) (route_match lib) (star_decodes lib)).

(** The stack never changes once [start] has registered it. *)
Lemma app_run (evs : list Event) :
  app (run evs started) =
    map use (installed_middleware config lib)
    ++ aplicationRoutes lib ++ terminal_stages lib.
Proof.
  rewrite (inv_app _ _ _ _ _ _ (invariant_run config lib evs)).
  by rewrite started_eq.
Qed.

(** Once the process has started, socket.io is attached to the server. *)
Lemma serve_request_run (evs : list Event) (req : Request) :
  serve_request lib (run evs started) req =
    if transport_takes lib req then ByTransport
    else ByExpress (express_serves lib (run evs started) req).
Proof.
  destruct (inv_io _ _ _ _ _ _ (invariant_run config lib evs)) as (sockets & Hio & _).
  unfold serve_request. by rewrite Hio.
Qed.

(** A send on a response that is still open, with a status Node accepts. *)
Lemma json_wrote (body : Json) (req : Request) (res : Response) :
  res_sent res = None -> valid_status (res_statusCode res) = true ->
  json (sends_body lib) body req res =
    Wrote {| res_statusCode := res_statusCode res;
             res_sent := Some {| reply_status := res_statusCode res;
                                 reply_body :=
                                   if sends_body lib req (res_statusCode res)
                                   then Some body else None |} |}.
Proof. intros Hres Hok. unfold json. by rewrite Hres, Hok. Qed.

Lemma json_already_sent (body : Json) (req : Request) (res : Response) :
  res_sent res <> None ->
  json (sends_body lib) body req res = Threw ERR_HTTP_HEADERS_SENT.
Proof. intros Hres. unfold json. by destruct (res_sent res). Qed.

Lemma json_invalid_status (body : Json) (req : Request) (res : Response) :
  res_sent res = None -> valid_status (res_statusCode res) = false ->
  json (sends_body lib) body req res = Threw ERR_HTTP_INVALID_STATUS_CODE.
Proof. intros Hres Hok. unfold json. by rewrite Hres, Hok. Qed.

(** Transparent middleware hands the request on, with nothing sent. *)
Lemma dispatch_passes (hs : list RequestHandler) (rest : list Layer) req :
  Forall (fun h => passes_on h req) hs ->
  forall res logs, res_sent res = None ->
  exists res' logs',
    res_sent res' = None
    /\ dispatch (map use hs ++ rest) None req res logs
       = dispatch rest None req res' logs'.
Proof.
  induction 1 as [|h hs Hh _ IH]; intros res logs Hres.
  - by exists res, logs.
  - destruct (Hh res Hres) as [Hnext Hsent].
    destruct (IH (h_res (h req res)) (logs ++ h_log (h req res)) Hsent)
      as (res' & logs' & Hres' & Heq).
    exists res', logs'. split; [done |].
    cbn. by rewrite Hnext.
Qed.

(** Layers that do not match are skipped. *)
Lemma dispatch_skips (ls rest : list Layer) req res logs :
  Forall (fun l => layer_match l req = NoMatch) ls ->
  dispatch (ls ++ rest) None req res logs = dispatch rest None req res logs.
Proof.
  induction 1 as [|l ls Hl _ IH]; [done |].
  cbn [List.app Express.dispatch]. destruct l as [verb pat h|h]; [| done].
  by rewrite Hl.
Qed.


(** The error handler on a [CustomError], by what the send does. *)
Lemma error_handler_sent (e : CustomError) (req : Request) (res : Response) :
  res_sent res = None -> valid_status (statusCode e) = true ->
  errorHandler lib (IsCustomError e) req res =
    {| h_res := {| res_statusCode := statusCode e;
                   res_sent :=
                     Some {| reply_status := statusCode e;
                             reply_body :=
                               if sends_body lib req (statusCode e)
                               then Some (serializeErrors e) else None |} |};
       h_log := [{| logger := setupServer; level := Error;
                    payload := Thrown (IsCustomError e) |}];
       h_next := NextOk |}.
Proof.
  intros Hres Hok. unfold errorHandler. cbn [instanceof_CustomError].
  by rewrite json_wrote.
Qed.

Lemma error_handler_threw (e : CustomError) (req : Request) (res : Response) :
  res_sent res <> None \/ valid_status (statusCode e) = false ->
  exists thrown,
    errorHandler lib (IsCustomError e) req res =
      {| h_res := status (statusCode e) res;
         h_log := [{| logger := setupServer; level := Error;
                      payload := Thrown (IsCustomError e) |}];
         h_next := NextErr thrown |}
    /\ (thrown = ERR_HTTP_HEADERS_SENT \/ thrown = ERR_HTTP_INVALID_STATUS_CODE).
Proof.
  intros H. unfold errorHandler. cbn [instanceof_CustomError].
  destruct (res_sent res) as [r|] eqn:Hres.
  - exists ERR_HTTP_HEADERS_SENT. split; [| by left].
    rewrite json_already_sent; [done |]. cbn. by rewrite Hres.
  - destruct H as [H | H]; [done |].
    exists ERR_HTTP_INVALID_STATUS_CODE. split; [| by right].
    by rewrite json_invalid_status.
Qed.

(** An error that is not a [CustomError] is logged and nothing is sent
    by the handler. *)
Lemma error_handler_unhandled (raw : string) (req : Request) (res : Response) :
  errorHandler lib (Unhandled raw) req res =
    {| h_res := res;
       h_log := [{| logger := setupServer; level := Error;
                    payload := Thrown (Unhandled raw) |}];
       h_next := NextOk |}.
Proof. reflexivity. Qed.



(** C9, as the code has it. The error handler reaches [next()] for every
  error that is not a [CustomError], and for every [CustomError] whose
  response it could send (nothing sent before, a status from 100 to
  999).  When that send throws, [next()] is not reached: what was
  thrown is handed on in its place.  In every case control passes to
  what follows the handler, here Express's own final handler. *)
Theorem error_handler_calls_next (err : IErrorResponse) (req : Request)
    (res : Response) (logs : list LogEntry) :
  (forall raw, err = Unhandled raw ->
     h_next (errorHandler lib err req res) = NextOk
     /\ h_res (errorHandler lib err req res) = res)
  /\ (forall e, err = IsCustomError e ->
        res_sent res = None -> 100 <= statusCode e <= 999 ->
        h_next (errorHandler lib err req res) = NextOk
        /\ res_sent (h_res (errorHandler lib err req res)) =
             Some {| reply_status := statusCode e;
                     reply_body :=
                       if sends_body lib req (statusCode e)
                       then Some (serializeErrors e) else None |})
  /\ (forall e, err = IsCustomError e ->
        res_sent res <> None \/ ~ 100 <= statusCode e <= 999 ->
        (h_next (errorHandler lib err req res) = NextErr ERR_HTTP_HEADERS_SENT
         \/ h_next (errorHandler lib err req res) = NextErr ERR_HTTP_INVALID_STATUS_CODE)
        /\ res_sent (h_res (errorHandler lib err req res)) = res_sent res)
  /\ fell_through (dispatch (terminal_stages lib) (Some err) req res logs) = true.
Proof.
  split_and!.
  - by intros raw ->.
  - intros e -> Hres Hcode.
    assert (valid_status (statusCode e) = true) as Hok
      by (unfold valid_status; apply andb_true_intro; split; lia).
    by rewrite error_handler_sent.
  - intros e -> H.
    destruct (error_handler_threw e req res) as (thrown & -> & Hthrown).
    + destruct H as [H | H]; [by left | right].
      unfold valid_status. apply andb_false_iff.
      destruct (Z.leb_spec 100 (statusCode e)); [right | by left].
      apply Z.leb_gt. lia.
    + cbn. split; [| done]. destruct Hthrown as [-> | ->]; auto.
  - unfold terminal_stages, all, use_error. cbn [Express.dispatch].
    destruct err as [e | raw]; [| done].
    destruct (res_sent res) as [r|] eqn:Hres.
    + destruct (error_handler_threw e req res) as (thrown & -> & _); [| done].
      left. by rewrite Hres.
    + destruct (valid_status (statusCode e)) eqn:Hok.
      * by rewrite error_handler_sent.
      * destruct (error_handler_threw e req res) as (thrown & -> & _); [| done].
        by right.
Qed.

End Http.

(* ===================================================================== *)
(** ** Boot, bridge and reconnection *)
(* ===================================================================== *)

Section Lifecycle.

Variable config : Config.
Variable lib : Libraries.

Abbreviation react := (react config lib).
Abbreviation step := (step config lib).
Abbreviation run := (run config lib).
Abbreviation observed := (observed config lib).
Abbreviation Invariant := (Invariant config lib).
Abbreviation started := (started config lib).

Lemma expected_frame_returned (pub sub : option Result) :
  expected_frame pub sub = Returned <-> pub = Some Fulfilled /\ sub = Some Fulfilled.
Proof.
  destruct pub as [[|?]|], sub as [[|?]|]; cbn; split;
    (intros [? ?] || intros ?); try done.
Qed.

Lemma expected_frame_caught (pub sub : option Result) :
  expected_frame pub sub = Caught <->
  (exists reason, pub = Some (Rejected reason)) \/ (exists reason, sub = Some (Rejected reason)).
Proof.
  destruct pub as [[|?]|], sub as [[|?]|]; cbn; split;
    (intros [[? ?]|[? ?]] || intros ?); try done; eauto.
Qed.

Lemma returned_or_not (fr : StartServer) : fr = Returned \/ fr <> Returned.
Proof. destruct fr; auto. Qed.

Lemma frame_run (evs : list Event) :
  frame (run evs started) =
    expected_frame (first_settle pub_promise (observed evs started))
                   (first_settle sub_promise (observed evs started)).
Proof. apply (inv_frame _ _ _ _ _ _ (invariant_run config lib evs)). Qed.

Lemma adapter_run (evs : list Event) :
  adapter_of (run evs started) =
    match frame (run evs started) with
    | Returned => Some (0%nat, 1%nat)
    | _ => None
    end.
Proof.
  destruct (inv_io _ _ _ _ _ _ (invariant_run config lib evs)) as (sockets & Hio & _).
  unfold adapter_of. rewrite Hio, frame_run. done.
Qed.

Lemma listen_called_run (evs : list Event) :
  listen_called (run evs started) <-> frame (run evs started) = Returned.
Proof.
  pose proof (invariant_run config lib evs) as I. rewrite frame_run. split.
  - intros [port Hin].
    destruct (returned_or_not (expected_frame
                (first_settle pub_promise (observed evs started))
                (first_settle sub_promise (observed evs started))))
      as [|Hne]; [done |].
    pose proof (inv_quiet _ _ _ _ _ _ I Hne) as Hq.
    rewrite Forall_forall in Hq. apply list_elem_of_In, Hq in Hin. done.
  - intros Hr. destruct (inv_order _ _ _ _ _ _ I Hr) as (before & after & Ht).
    exists SERVER_PORT. rewrite Ht. apply in_or_app. right. cbn. auto.
Qed.

(** C2. The two broker connections are opened together: when
  [initialize] returns, the last two calls made are [connect()] on the
  publish client and [connect()] on the subscribe client, both clients
  are connecting, both promises are pending and [startServer] waits for
  the two.  Each client then follows its own connection (connecting,
  ready, failed).  [createSocketIO] completes exactly when both
  connections were fulfilled, fails when either was rejected, and the
  adapter is installed only in the first case, with both clients
  ready. *)
Theorem bridge_is_all_or_nothing (evs : list Event) :
  let obs := observed evs started in
  let w := run evs started in
  ((exists before,
      trace started =
        before ++ [ClientConnect 0%nat pub_promise; ClientConnect 1%nat sub_promise])
   /\ map client_state (clients started) = [Connecting; Connecting]
   /\ pending started !! pub_promise = Some (PromiseAllInput 0%nat)
   /\ pending started !! sub_promise = Some (PromiseAllInput 1%nat)
   /\ frame started = Suspended [pub_promise; sub_promise] 0%nat 1%nat)
  /\ map client_state (clients w) =
       [expected_state (first_settle pub_promise obs);
        expected_state (first_settle sub_promise obs)]
  /\ (frame w = Returned <-> fulfilled_in pub_promise obs /\ fulfilled_in sub_promise obs)
  /\ (frame w = Caught <-> rejected_in pub_promise obs \/ rejected_in sub_promise obs)
  /\ (adapter_of w = Some (0%nat, 1%nat) <-> frame w = Returned)
  /\ (frame w <> Returned -> adapter_of w = None)
  /\ (frame w = Returned -> Forall (fun c => client_state c = Ready) (clients w)).
Proof.
  intros obs w. pose proof (invariant_run config lib evs) as I.
  fold obs w in I. unfold fulfilled_in, rejected_in.
  assert (frame w = expected_frame (first_settle pub_promise obs)
                                   (first_settle sub_promise obs)) as Hf
    by apply frame_run.
  assert (adapter_of w = match frame w with
                         | Returned => Some (0%nat, 1%nat)
                         | _ => None
                         end) as Ha by apply adapter_run.
  split_and!.
  - rewrite started_eq. cbn [trace]. unfold startup_calls.
    eexists. rewrite !app_assoc.
    change [AppRegister (7 + length (aplicationRoutes lib));
            AppRegister (8 + length (aplicationRoutes lib));
            NewHttpServer; NewSocketServer (CLIENT_URL config);
            CreateClient 0%nat (REDIS_HOST config); Duplicate 0%nat 1%nat;
            ClientConnect 0%nat 1%nat; ClientConnect 1%nat 2%nat]
      with ([AppRegister (7 + length (aplicationRoutes lib));
             AppRegister (8 + length (aplicationRoutes lib));
             NewHttpServer; NewSocketServer (CLIENT_URL config);
             CreateClient 0%nat (REDIS_HOST config); Duplicate 0%nat 1%nat]
            ++ [ClientConnect 0%nat 1%nat; ClientConnect 1%nat 2%nat]).
    rewrite app_assoc. reflexivity.
  - by rewrite started_eq.
  - by rewrite started_eq.
  - by rewrite started_eq.
  - by rewrite started_eq.
  - by rewrite (inv_clients _ _ _ _ _ _ I).
  - rewrite Hf. apply expected_frame_returned.
  - rewrite Hf. apply expected_frame_caught.
  - rewrite Ha. by destruct (frame w).
  - rewrite Ha. by destruct (frame w).
  - rewrite Hf. intros [Hp Hs]%expected_frame_returned.
    rewrite (inv_clients _ _ _ _ _ _ I), Hp, Hs. by repeat constructor.
Qed.

(** C8. Whenever a bridge exists, and already while [startServer] waits
  for the two connections, the publish and the subscribe client are two
  different handles, both created for the configured broker address. *)
Theorem bridge_clients_are_distinct (evs : list Event) (pub sub : ClientId) :
  let w := run evs started in
  adapter_of w = Some (pub, sub)
    \/ (exists awaiting, frame w = Suspended awaiting pub sub) ->
  pub <> sub
  /\ url_of w pub = Some (REDIS_HOST config)
  /\ url_of w sub = Some (REDIS_HOST config).
Proof.
  intros w H. pose proof (invariant_run config lib evs) as I. fold w in I.
  assert (pub = 0%nat /\ sub = 1%nat) as [-> ->].
  { destruct H as [H | [awaiting H]].
    - unfold w in H. rewrite adapter_run in H.
      destruct (frame (run evs started)); by inversion H.
    - rewrite (inv_frame _ _ _ _ _ _ I) in H.
      destruct (first_settle pub_promise _) as [[|?]|],
               (first_settle sub_promise _) as [[|?]|]; by inversion H. }
  unfold url_of. rewrite (inv_clients _ _ _ _ _ _ I). done.
Qed.

(** C10. [socketIOConnections] changes nothing: the process is the same
  after the call as before it.  No 'connection' listener is ever
  registered on the transport server, and a socket that is accepted gets
  no event handlers. *)
Theorem session_hook_is_noop (evs : list Event) :
  (forall w, socketIOConnections w = (Some tt, w))
  /\ (forall srv, io (run evs started) = Some srv ->
        io_listeners srv = []
        /\ Forall (fun s => socket_handlers s = []) (io_sockets srv)).
Proof.
  split; [done |]. intros srv Hsrv.
  destruct (inv_io _ _ _ _ _ _ (invariant_run config lib evs)) as (sockets & Hio & Hall).
  rewrite Hio in Hsrv. by injection Hsrv as <-.
Qed.

End Lifecycle.

Section Storage.

Variable config : Config.
Variable lib : Libraries.

Abbreviation react := (react config lib).
Abbreviation step := (step config lib).
Abbreviation run := (run config lib).
Abbreviation observed := (observed config lib).
Abbreviation Invariant := (Invariant config lib).
Abbreviation started := (started config lib).

Lemma step_disconnected (pre : list Event) :
  let w := run pre started in
  exited w = None ->
  step Disconnected w =
    set_pending (insert (next_promise w) ThenCatchConnect)
      (set_trace (fun t => t ++ [MongooseConnect (DATABASE_URL config) (next_promise w)])
         (set_next_promise (S (next_promise w)) w)).
Proof.
  intros w Hlive. rewrite step_alive by done.
  rewrite react_disconnected; [done |].
  apply (inv_listeners _ _ _ _ _ _ (invariant_run config lib pre)).
Qed.

(** C1, as the code has it. While the process runs, every disconnect
  event starts exactly one connect attempt, whose promise carries the
  then/catch chain of [connect]; an attempt that is fulfilled writes the
  success entry and the process goes on; an attempt that is rejected
  writes the failure entry and ends the process with exit code 1, after
  which no event is handled. *)
Theorem reconnect_per_disconnect (pre evs : list Event) :
  let w := run pre started in
  exited w = None ->
  (* one attempt for every disconnect that reaches the process *)
  attempts (run evs w) = (attempts w + disconnects (observed evs w))%nat
  /\ (exited (run evs w) = None ->
      attempts (run evs w) = (attempts w + disconnects evs)%nat)
  (* the attempt made for a disconnect *)
  /\ (trace (step Disconnected w) =
        trace w ++ [MongooseConnect (DATABASE_URL config) (next_promise w)]
      /\ pending (step Disconnected w) !! next_promise w = Some ThenCatchConnect
      /\ exited (step Disconnected w) = None)
  (* the outcome of an attempt *)
  /\ (forall p, pending w !! p = Some ThenCatchConnect ->
        (trace (step (Settled p Fulfilled) w) = trace w ++ [connected_entry]
         /\ exited (step (Settled p Fulfilled) w) = None)
        /\ (forall reason,
              trace (step (Settled p (Rejected reason)) w) =
                trace w ++ [connect_failed_entry reason; ProcessExit 1]
              /\ exited (step (Settled p (Rejected reason)) w) = Some 1
              /\ (forall more, run more (step (Settled p (Rejected reason)) w) =
                               step (Settled p (Rejected reason)) w))).
Proof.
  intros w Hlive. split_and!.
  - destruct (run_trace config lib pre evs) as (new & Ht & Hn).
    fold w in Ht, Hn. unfold attempts. by rewrite Ht, count_if_app, Hn.
  - intros Hend. destruct (run_trace config lib pre evs) as (new & Ht & Hn).
    fold w in Ht, Hn. rewrite (observed_alive _ _ _ _ Hend) in Hn.
    unfold attempts. by rewrite Ht, count_if_app, Hn.
  - unfold w. by rewrite step_disconnected.
  - unfold w. rewrite step_disconnected by done. cbn. apply lookup_insert_eq.
  - unfold w. by rewrite step_disconnected.
  - intros p Hp. split; [| intros reason].
    + rewrite step_alive, react_connect_fulfilled by done. done.
    + rewrite step_alive, react_connect_rejected by done. cbn.
      rewrite <- app_assoc. split_and!; try done.
      intros more. by eapply run_exited.
Qed.

(** C3, as the code has it. When the first storage attempt is rejected
  while the process runs, the process ends with exit code 1 and nothing
  is bound afterwards; the listener has been bound before that exactly
  when both broker connections had already been fulfilled, so it is
  never bound when the rejection comes first. *)
Theorem initial_connect_failure_exits (pre post : list Event) (reason : IErrorResponse) :
  let before := run pre started in
  let w := run (pre ++ Settled storage_promise (Rejected reason) :: post) started in
  exited before = None ->
  first_settle storage_promise pre = None ->
  exited w = Some 1
  /\ http w = http before
  /\ (listen_called w <-> fulfilled_in pub_promise pre /\ fulfilled_in sub_promise pre)
  /\ (~ (fulfilled_in pub_promise pre /\ fulfilled_in sub_promise pre) ->
      http w = Created /\ ~ listen_called w).
Proof.
  intros before w Hlive Hfirst.
  pose proof (invariant_run config lib pre) as I.
  rewrite (observed_alive _ _ _ _ Hlive) in I. fold before in I.
  assert (pending before !! storage_promise = Some ThenCatchConnect) as Hp.
  { rewrite (inv_storage _ _ _ _ _ _ I), Hfirst. done. }
  assert (w = set_exited (Some 1)
                (set_trace (fun t => t ++ [ProcessExit 1])
                   (set_trace (fun t => t ++ [connect_failed_entry reason])
                      (set_pending (delete storage_promise) before)))) as Hw.
  { unfold w. rewrite run_app. fold before. cbn.
    rewrite step_alive, react_connect_rejected by done. cbn.
    by erewrite run_exited. }
  assert (listen_called w <-> listen_called before) as Hl.
  { rewrite Hw. unfold listen_called. cbn. split; intros [port H]; exists port.
    - apply in_app_or in H as [H|[H|[]]]; [| done].
      apply in_app_or in H as [H|[H|[]]]; done.
    - apply in_or_app. left. apply in_or_app. by left. }
  assert (listen_called before <->
          fulfilled_in pub_promise pre /\ fulfilled_in sub_promise pre) as Hb.
  { unfold before. rewrite listen_called_run, frame_run.
    rewrite (observed_alive _ _ _ _ Hlive). apply expected_frame_returned. }
  split_and!.
  - by rewrite Hw.
  - by rewrite Hw.
  - by rewrite Hl.
  - intros Hnot. split; [| by rewrite Hl, Hb].
    rewrite Hw. cbn. pose proof (inv_http _ _ _ _ _ _ I) as Hh.
    destruct (expected_frame (first_settle pub_promise pre)
                             (first_settle sub_promise pre)) eqn:E; try done.
    by apply expected_frame_returned in E.
Qed.

End Storage.

Section Bridge.

Variable config : Config.
Variable lib : Libraries.

Abbreviation react := (react config lib).
Abbreviation step := (step config lib).
Abbreviation run := (run config lib).
Abbreviation observed := (observed config lib).
Abbreviation Invariant := (Invariant config lib).
Abbreviation started := (started config lib).

Lemma observed_app (a b : list Event) (w : World) :
  observed (a ++ b) w = observed a w ++ observed b (run a w).
Proof.
  revert w. induction a as [|ev a IH]; intros w; cbn; [done |].
  destruct (exited w) eqn:Hx.
  - rewrite (step_exited _ _ _ _ _ Hx), (run_exited _ _ _ _ _ Hx).
    destruct b; cbn; by rewrite ?Hx.
  - cbn. by rewrite IH.
Qed.

Lemma quiet_no_adapter (t : list Action) (pub sub : ClientId) :
  Forall (fun a => bridge_call a = false) t -> ~ In (IoAdapter pub sub) t.
Proof.
  intros Hq Hin. rewrite Forall_forall in Hq.
  by apply list_elem_of_In, Hq in Hin.
Qed.

(** C4. When a broker connection is rejected while [startServer] waits
  for the bridge, the catch block logs the error and does not end the
  process; in that run the adapter is never attached to the transport
  server, [listen] is never called and the http server stays unbound. *)
Theorem broker_failure_aborts_startup (pre post : list Event) (p : PromiseId)
    (reason : IErrorResponse) :
  let before := run pre started in
  let failed := step (Settled p (Rejected reason)) before in
  let w := run post failed in
  p = pub_promise \/ p = sub_promise ->
  exited before = None ->
  first_settle p pre = None ->
  (exists logged, In (bridge_failed_entry logged) (trace w))
  /\ (frame before <> Caught ->
      trace failed = trace before ++ [bridge_failed_entry reason])
  /\ (frame before = Caught -> trace failed = trace before)
  /\ exited failed = None
  /\ frame w = Caught
  /\ adapter_of w = None
  /\ (forall pub sub, ~ In (IoAdapter pub sub) (trace w))
  /\ ~ listen_called w
  /\ http w = Created.
Proof.
  intros before failed w Hp Hlive Hfirst.
  pose proof (invariant_run config lib pre) as Ib.
  rewrite (observed_alive _ _ _ _ Hlive) in Ib. fold before in Ib.
  assert (exists c, pending before !! p = Some (PromiseAllInput c)) as [c Hpend].
  { destruct Hp as [-> | ->].
    - rewrite (inv_pub _ _ _ _ _ _ Ib), Hfirst. by eexists.
    - rewrite (inv_sub _ _ _ _ _ _ Ib), Hfirst. by eexists. }
  assert (w = run (pre ++ Settled p (Rejected reason) :: post) started) as Hw.
  { by rewrite run_app. }
  pose proof (invariant_run config lib (pre ++ Settled p (Rejected reason) :: post)) as I.
  rewrite <- Hw in I.
  assert (expected_frame
            (first_settle pub_promise
               (observed (pre ++ Settled p (Rejected reason) :: post) started))
            (first_settle sub_promise
               (observed (pre ++ Settled p (Rejected reason) :: post) started))
          = Caught) as Hc.
  { apply expected_frame_caught.
    rewrite observed_app, (observed_alive _ _ _ _ Hlive). fold before. cbn.
    rewrite Hlive, !first_settle_app. cbn.
    destruct Hp as [-> | ->]; [left | right]; exists reason; by rewrite Hfirst. }
  assert (frame w = Caught) as Hf.
  { by rewrite (inv_frame _ _ _ _ _ _ I). }
  assert (Forall (fun a => bridge_call a = false) (trace w)) as Hq.
  { apply (inv_quiet _ _ _ _ _ _ I). by rewrite Hc. }
  split_and!.
  - apply (inv_caught _ _ _ _ _ _ I Hc).
  - intros Hnc. unfold failed. rewrite step_alive by done.
    destruct (frame before) as [|awaiting pub sub| |] eqn:Hfb; try done.
    + pose proof (inv_frame _ _ _ _ _ _ Ib) as E. rewrite Hfb in E.
      by destruct (first_settle pub_promise pre) as [[|?]|],
                  (first_settle sub_promise pre) as [[|?]|].
    + by erewrite react_input_rejected.
    + pose proof (inv_frame _ _ _ _ _ _ Ib) as E. rewrite Hfb in E.
      destruct Hp as [-> | ->]; rewrite Hfirst in E;
        [ destruct (first_settle sub_promise pre) as [[|?]|]
        | destruct (first_settle pub_promise pre) as [[|?]|] ]; done.
  - intros Hcb. unfold failed. rewrite step_alive by done.
    by rewrite (react_input_ignored _ _ _ _ c) by (try done; by rewrite Hcb).
  - unfold failed. rewrite step_alive by done.
    destruct (frame before) as [|awaiting pub sub| |] eqn:Hfb.
    + by rewrite (react_input_ignored _ _ _ _ c) by (try done; by rewrite Hfb).
    + by erewrite react_input_rejected.
    + by rewrite (react_input_ignored _ _ _ _ c) by (try done; by rewrite Hfb).
    + by rewrite (react_input_ignored _ _ _ _ c) by (try done; by rewrite Hfb).
  - done.
  - rewrite Hw, adapter_run, <- Hw. by rewrite Hf.
  - intros pub sub. by apply quiet_no_adapter.
  - rewrite Hw, listen_called_run, <- Hw. by rewrite Hf.
  - pose proof (inv_http _ _ _ _ _ _ I) as Hh. by rewrite Hc in Hh.
Qed.

(** C7, as the code has it. The synchronous part of start-up begins steps
  1 to 5 in order and leaves the storage promise pending, with both
  broker promises in flight together; everything later comes after
  these calls; [listen] (step 6) is called exactly when both broker
  connections have been fulfilled, after the adapter was attached, and
  whatever the state of the storage promise. *)
Theorem startup_order (evs : list Event) :
  let obs := observed evs started in
  let w := run evs started in
  (trace started = startup_calls config lib
   /\ pending started !! storage_promise = Some ThenCatchConnect
   /\ pending started !! pub_promise = Some (PromiseAllInput 0%nat)
   /\ pending started !! sub_promise = Some (PromiseAllInput 1%nat))
  /\ (exists rest, trace w = startup_calls config lib ++ rest)
  /\ (listen_called w <-> fulfilled_in pub_promise obs /\ fulfilled_in sub_promise obs)
  /\ (listen_called w ->
      exists before after,
        trace w = before ++ [IoAdapter 0%nat 1%nat; server_started_entry lib;
                             Listen SERVER_PORT] ++ after).
Proof.
  intros obs w. pose proof (invariant_run config lib evs) as I. fold obs w in I.
  split_and!; try (by rewrite started_eq).
  - apply I.
  - unfold w. rewrite listen_called_run, frame_run. apply expected_frame_returned.
  - unfold w. rewrite listen_called_run, frame_run. apply I.
Qed.

End Bridge.
(* ===================================================================== *)
(** ** The statements at work on the sample deployment *)
(* ===================================================================== *)

Lemma sample_middleware_passes (req : Request) :
  Forall (fun h => passes_on h req) (installed_middleware Sample.config Sample.lib).
Proof.
  unfold installed_middleware.
  repeat (constructor; [by intros res H |]).
  constructor.
Qed.





(** C9 as the spec words it fails: when the send of the error handler
    throws (a status code that Node refuses, or a reply that has gone out
    already), the handler is left before its [next()]; Express hands on
    what was thrown. *)
Lemma next_is_not_reached_when_send_throws :
  h_next (errorHandler Sample.lib (IsCustomError sample_status_99)
            Sample.signup_request fresh_response)
    = NextErr ERR_HTTP_INVALID_STATUS_CODE
  /\ h_next (errorHandler Sample.lib (IsCustomError Sample.bad_request)
               Sample.signup_request sample_sent_response)
     = NextErr ERR_HTTP_HEADERS_SENT.
Proof. split; vm_compute; reflexivity. Qed.

(** The same error, raised by a route of the running application. *)
Example signup_is_rejected_with_400 :
  serve_request Sample.lib Sample.booted Sample.signup_request =
    ByExpress
      {| served_res :=
           {| res_statusCode := 400;
              res_sent := Some {| reply_status := 400;
                                  reply_body := Some (JObj [("field", JStr "x")]) |} |};
         served_log := [{| logger := setupServer; level := Error;
                           payload := Thrown (IsCustomError Sample.bad_request) |}];
         fell_through := true |}.
Proof. vm_compute. reflexivity. Qed.

(** A route that matches is served by its handler, not by the 404 stage. *)
Example health_is_served :
  serve_request Sample.lib Sample.booted
    {| method := "GET"; originalUrl := "/health?probe=1" |} =
    ByExpress
      {| served_res :=
           {| res_statusCode := 200;
              res_sent := Some {| reply_status := 200;
                                  reply_body := Some (JObj [("status", JStr "ok")]) |} |};
         served_log := [];
         fell_through := false |}.
Proof. vm_compute. reflexivity. Qed.

Lemma bridge_clients_are_distinct_witness :
  adapter_of Sample.booted = Some (0%nat, 1%nat)
  /\ 0%nat <> 1%nat
  /\ url_of Sample.booted 0%nat = Some (REDIS_HOST Sample.config)
  /\ url_of Sample.booted 1%nat = Some (REDIS_HOST Sample.config).
Proof.
  split; [vm_compute; reflexivity |].
  apply (bridge_clients_are_distinct Sample.config Sample.lib Sample.good_boot 0%nat 1%nat).
  left. vm_compute. reflexivity.
Defined.

Lemma reconnect_per_disconnect_witness :
  exited Sample.booted = None
  /\ attempts (run Sample.config Sample.lib
                 [Disconnected; Settled 3%nat Fulfilled; Disconnected] Sample.booted)
     = (attempts Sample.booted + 2)%nat.
Proof.
  split; [vm_compute; reflexivity |].
  destruct (reconnect_per_disconnect Sample.config Sample.lib Sample.good_boot
              [Disconnected; Settled 3%nat Fulfilled; Disconnected]) as [H _].
  - vm_compute. reflexivity.
  - exact H.
Defined.

Lemma initial_connect_failure_exits_witness :
  exited (run Sample.config Sample.lib [Settled pub_promise Fulfilled] Sample.world) = None
  /\ first_settle storage_promise [Settled pub_promise Fulfilled] = None
  /\ exited (run Sample.config Sample.lib
               ([Settled pub_promise Fulfilled]
                ++ Settled storage_promise (Rejected Sample.refused)
                   :: [Settled sub_promise Fulfilled; Listening])
               Sample.world) = Some 1.
Proof.
  split_and!; [vm_compute; reflexivity | reflexivity |].
  destruct (initial_connect_failure_exits Sample.config Sample.lib
              [Settled pub_promise Fulfilled]
              [Settled sub_promise Fulfilled; Listening] Sample.refused) as [H _].
  - vm_compute. reflexivity.
  - reflexivity.
  - exact H.
Defined.

Lemma broker_failure_aborts_startup_witness :
  exited (run Sample.config Sample.lib [Settled pub_promise Fulfilled] Sample.world) = None
  /\ first_settle sub_promise [Settled pub_promise Fulfilled] = None
  /\ frame (run Sample.config Sample.lib [Listening; Disconnected]
              (step Sample.config Sample.lib (Settled sub_promise (Rejected Sample.refused))
                 (run Sample.config Sample.lib [Settled pub_promise Fulfilled] Sample.world)))
     = Caught.
Proof.
  split_and!; [vm_compute; reflexivity | reflexivity |].
  destruct (broker_failure_aborts_startup Sample.config Sample.lib
              [Settled pub_promise Fulfilled] [Listening; Disconnected]
              sub_promise Sample.refused) as (_ & _ & _ & _ & Hf & _).
  - right. reflexivity.
  - vm_compute. reflexivity.
  - reflexivity.
  - exact Hf.
Defined.

(** C1 as the spec words it fails: after a successful boot, a reconnect
    attempt that is refused ends the process with exit code 1, and the
    disconnect that follows starts no attempt (two events, one attempt). *)
Lemma refused_reconnect_is_fatal :
  exited Sample.booted = None
  /\ http Sample.booted = Bound SERVER_PORT
  /\ disconnects Sample.reconnect_refused = 2%nat
  /\ attempts (run Sample.config Sample.lib Sample.reconnect_refused Sample.booted)
     = (attempts Sample.booted + 1)%nat
  /\ exited (run Sample.config Sample.lib Sample.reconnect_refused Sample.booted) = Some 1.
Proof. vm_compute. repeat split. Qed.

(** C3 as the spec words it fails: the data store refuses after both
    broker connections were made; the process exits with code 1, but
    [listen] has been called and the port is bound. *)
Lemma listener_bound_before_storage_failure :
  exited (run Sample.config Sample.lib Sample.storage_refused_late Sample.world) = Some 1
  /\ http (run Sample.config Sample.lib Sample.storage_refused_late Sample.world)
     = Bound SERVER_PORT
  /\ listen_called (run Sample.config Sample.lib Sample.storage_refused_late Sample.world).
Proof.
  split_and!; [vm_compute; reflexivity .. |].
  exists SERVER_PORT. vm_compute. tauto.
Qed.

(** C7 as the spec words it fails: the storage promise of step 1 is still
    pending when the synchronous part has begun steps 2 to 5, and it is
    still pending when the listener of step 6 is bound. *)
Lemma storage_connect_is_not_awaited :
  pending Sample.world !! storage_promise = Some ThenCatchConnect
  /\ In NewExpress (trace Sample.world)
  /\ In NewHttpServer (trace Sample.world)
  /\ In (ClientConnect 1%nat sub_promise) (trace Sample.world)
  /\ pending (run Sample.config Sample.lib Sample.broker_first Sample.world)
       !! storage_promise = Some ThenCatchConnect
  /\ http (run Sample.config Sample.lib Sample.broker_first Sample.world)
     = Bound SERVER_PORT.
Proof.
  split_and!; try (vm_compute; reflexivity); vm_compute; tauto.
Qed.

(* ===================================================================== *)
(** ** Tallies over the trace *)
(* ===================================================================== *)

Section Tallies.

Variable config : Config.
Variable lib : Libraries.

Abbreviation react := (react config lib).
Abbreviation step := (step config lib).
Abbreviation run := (run config lib).
Abbreviation observed := (observed config lib).
Abbreviation Invariant := (Invariant config lib).
Abbreviation Tally := (Tally config lib).
Abbreviation started := (started config lib).

#[local] Arguments startup_calls : simpl never.

Lemma count_if_none {A} (f : A -> bool) (l : list A) :
  Forall (fun a => f a = false) l -> count_if f l = 0%nat.
Proof. induction 1 as [|a l Ha _ IH]; cbn; [done |]. by rewrite Ha, IH. Qed.

Lemma startup_calls_none (f : Action -> bool) :
  (forall n, f (AppRegister n) = false) ->
  f ValidateConfig = false -> f (OnDisconnected CbConnect) = false ->
  f NewExpress = false -> f NewHttpServer = false ->
  (forall s, f (NewSocketServer s) = false) ->
  (forall c s, f (CreateClient c s) = false) ->
  (forall c d, f (Duplicate c d) = false) ->
  (forall c p, f (ClientConnect c p) = false) ->
  count_if f (startup_calls config lib)
  = count_if f [MongooseConnect (DATABASE_URL config) 0%nat].
Proof.
  intros Hreg Hv Hd He Hh Hs Hc Hdup Hcc.
  unfold startup_calls. rewrite !count_if_app.
  rewrite (count_if_none f (map _ (seq 0 7))), (count_if_none f (map _ (seq 7 _))).
  - cbn. rewrite Hv, Hd, He, !Hreg, Hh, Hs, Hc, Hdup, !Hcc. lia.
  - apply List.Forall_map, Forall_forall. by intros.
  - apply List.Forall_map, Forall_forall. by intros.
Qed.

Lemma size_delete_present {A} (m : gmap nat A) (i : nat) (x : A) :
  m !! i = Some x -> size m = S (size (delete i m)).
Proof.
  intros H. rewrite <- (insert_delete_id m i x H) at 1.
  apply map_size_insert_None, lookup_delete_eq.
Qed.

Lemma waiting_delete_connect (w : World) (p : PromiseId) :
  pending w !! p = Some ThenCatchConnect ->
  waiting w = S (waiting (set_pending (delete p) w)).
Proof.
  intros H. unfold waiting. cbn. rewrite map_filter_delete.
  apply (size_delete_present _ p ThenCatchConnect).
  by apply map_lookup_filter_Some.
Qed.

Lemma waiting_delete_input (w : World) (p : PromiseId) (c : ClientId) :
  pending w !! p = Some (PromiseAllInput c) ->
  waiting (set_pending (delete p) w) = waiting w.
Proof.
  intros H. unfold waiting. cbn. rewrite map_filter_delete_not; [done |].
  intros y Hy HP. cbn in HP. pose proof (eq_trans (eq_sym Hy) H) as E. by subst.
Qed.

Lemma waiting_insert_connect (w : World) (p : PromiseId) :
  pending w !! p = None ->
  waiting (set_pending (insert p ThenCatchConnect) w) = S (waiting w).
Proof.
  intros H. unfold waiting. cbn. rewrite map_filter_insert_True by done.
  apply map_size_insert_None, map_lookup_filter_None. by left.
Qed.

Lemma tally_started : Tally started.
Proof.
  constructor.
  - unfold returned. rewrite started_eq. cbn. by rewrite startup_calls_none.
  - rewrite started_eq. cbn. intros port Hin.
    pose proof (startup_calls_quiet config lib) as Hq. rewrite Forall_forall in Hq.
    by apply list_elem_of_In, Hq in Hin.
  - unfold returned. rewrite started_eq. cbn. by rewrite startup_calls_none.
  - unfold bound. rewrite started_eq. cbn. by rewrite startup_calls_none.
  - rewrite started_eq. cbn. by rewrite startup_calls_none.
  - rewrite started_eq. cbn. exists []. by rewrite app_nil_r.
  - unfold attempts, waiting. rewrite started_eq. cbn.
    by rewrite !startup_calls_none.
Qed.

Lemma port_extend (t new : list Action) :
  (forall port, In (Listen port) t -> port = SERVER_PORT) ->
  (forall port, In (Listen port) new -> port = SERVER_PORT) ->
  forall port, In (Listen port) (t ++ new) -> port = SERVER_PORT.
Proof. intros Ht Hn port [H|H]%in_app_or; auto. Qed.

Lemma runtime_extend (t new s : list Action) :
  (exists rest, t = s ++ rest /\ Forall (fun a => runtime_call a = true) rest) ->
  Forall (fun a => runtime_call a = true) new ->
  exists rest, t ++ new = s ++ rest /\ Forall (fun a => runtime_call a = true) rest.
Proof.
  intros (rest & -> & Hr) Hn. exists (rest ++ new). split.
  - by rewrite app_assoc.
  - by apply Forall_app.
Qed.

Ltac open_tally T :=
  destruct T as [Tlisten Tport Tadapter Trunning Texit Truntime Toutcomes].

Ltac tally_fields :=
  constructor; unfold returned, bound, attempts in *; cbn;
  rewrite <- ?app_assoc, ?count_if_app; cbn;
  [ | first
      [ assumption
      | apply port_extend;
        [ assumption
        | cbn; unfold connected_entry, connect_failed_entry, bridge_failed_entry,
            server_started_entry, server_running_entry;
          intros ? ?; intuition (try discriminate; congruence) ] ]
    | | |
    | first [ assumption | apply runtime_extend; [assumption | repeat constructor] ]
    | ].

Ltac decide_prefix :=
  repeat match goal with
  | |- context [String.prefix ?a ?b] =>
      let v := eval lazy in (String.prefix a b) in
      change (String.prefix a b) with v
  end.

Ltac tally_done :=
  unfold waiting in *; cbn in *; decide_prefix; cbn;
  first [ lia | by eexists _, _ ].

(** Every event that reaches the running process keeps the tallies. *)
Lemma tally_react (obs : list Event) (w : World) (ev : Event) :
  Invariant obs w -> Tally w -> exited w = None -> Tally (snd (react ev w)).
Proof.
  intros I T Hlive. destruct ev as [p r| | |s].
  - destruct (pending w !! p) as [[|c]|] eqn:Hp.
    + pose proof (waiting_delete_connect w p Hp) as Hw.
      open_tally T. rewrite Hlive in Texit. destruct r as [|reason].
      * rewrite react_connect_fulfilled by done.
        tally_fields; rewrite ?Hlive; tally_done.
      * rewrite react_connect_rejected by done.
        tally_fields; tally_done.
    + pose proof (waiting_delete_input w p c Hp) as Hw.
      open_tally T. rewrite Hlive in Texit.
      destruct (frame w) as [|awaiting pub sub| |] eqn:Hf;
        try (rewrite (react_input_ignored _ _ _ _ c) by (try done; by rewrite Hf);
             unfold mark_client;
             tally_fields; rewrite ?Hlive, ?Hf in *; tally_done).
      destruct r as [|reason].
      * destruct (filter (fun x => x ≠ p) awaiting) as [|q rest] eqn:Hr.
        -- erewrite react_input_fulfilled_last by done. unfold mark_client.
           assert (http w = Created) as Hh.
           { pose proof (inv_http _ _ _ _ _ _ I) as Hh.
             rewrite <- (inv_frame _ _ _ _ _ _ I), Hf in Hh. exact Hh. }
           tally_fields; rewrite ?Hlive, ?Hf, ?Hh in *; tally_done.
        -- erewrite react_input_fulfilled_more by done. unfold mark_client.
           tally_fields; rewrite ?Hlive, ?Hf in *; tally_done.
      * erewrite react_input_rejected by done. unfold mark_client.
        tally_fields; rewrite ?Hlive, ?Hf in *; tally_done.
    + by rewrite react_unknown_promise.
  - rewrite react_disconnected by apply I.
    pose proof (waiting_insert_connect w (next_promise w)
                  (inv_fresh _ _ _ _ _ _ I _ (le_n _))) as Hw.
    open_tally T. rewrite Hlive in Texit.
    tally_fields; rewrite ?Hlive in *; tally_done.
  - destruct (http w) as [| |port|port] eqn:Hh;
      try (by rewrite react_listening_other by (by rewrite Hh)).
    rewrite (react_listening_bind _ _ _ port) by done.
    open_tally T. rewrite Hlive in Texit.
    tally_fields; rewrite ?Hlive, ?Hh in *; tally_done.
  - destruct (http w) as [| |port|port] eqn:Hh;
      try (by rewrite react_connection_unbound by (by rewrite Hh)).
    destruct (inv_io _ _ _ _ _ _ I) as (sockets & Hsrv & Hall).
    erewrite react_connection_bound by done.
    open_tally T. rewrite Hlive in Texit.
    tally_fields; rewrite ?Hlive, ?Hh in *; tally_done.
Qed.

Lemma tally_run (evs : list Event) : Tally (run evs started).
Proof.
  induction evs as [|ev evs IH] using rev_ind.
  - apply tally_started.
  - rewrite run_app. cbn.
    destruct (exited (run evs started)) eqn:Hx.
    + by rewrite (step_exited _ _ _ _ _ Hx).
    + rewrite step_alive by done.
      by apply (tally_react (observed evs started)); [apply invariant_run | |].
Qed.

End Tallies.

(* ===================================================================== *)
(** ** Further properties of the running process *)
(* ===================================================================== *)

Section Process.

Variable config : Config.
Variable lib : Libraries.

Abbreviation react := (react config lib).
Abbreviation step := (step config lib).
Abbreviation run := (run config lib).
Abbreviation observed := (observed config lib).
Abbreviation Invariant := (Invariant config lib).
Abbreviation started := (started config lib).
Abbreviation notFoundHandler := (notFoundHandler lib).
Abbreviation errorHandler := (errorHandler lib).

(** Only a rejected storage attempt ends the process. *)
Lemma react_exit (obs : list Event) (w : World) (ev : Event) :
  Invariant obs w -> exited w = None ->
  exited (snd (react ev w)) <> None ->
  exists p reason,
    ev = Settled p (Rejected reason)
    /\ pending w !! p = Some ThenCatchConnect.
Proof.
  intros I Hlive Hexit. destruct ev as [p r| | |s].
  - destruct (pending w !! p) as [[|c]|] eqn:Hp.
    + destruct r as [|reason]; [| by eauto].
      by rewrite react_connect_fulfilled in Hexit.
    + exfalso. apply Hexit.
      destruct (frame w) as [|awaiting pub sub| |] eqn:Hf;
        try (by rewrite (react_input_ignored _ _ _ _ c) by (try done; by rewrite Hf)).
      destruct r as [|reason].
      * destruct (filter (fun x => x ≠ p) awaiting) as [|q rest] eqn:Hr.
        -- by erewrite react_input_fulfilled_last.
        -- by erewrite react_input_fulfilled_more.
      * by erewrite react_input_rejected.
    + by rewrite react_unknown_promise in Hexit.
  - by rewrite react_disconnected in Hexit by apply I.
  - destruct (http w) as [| |port|port] eqn:Hh;
      try (by rewrite react_listening_other in Hexit by (by rewrite Hh)).
    by rewrite (react_listening_bind _ _ _ port) in Hexit.
  - destruct (http w) as [| |port|port] eqn:Hh;
      try (by rewrite react_connection_unbound in Hexit by (by rewrite Hh)).
    destruct (inv_io _ _ _ _ _ _ I) as (sockets & Hsrv & Hall).
    by erewrite react_connection_bound in Hexit.
Qed.

(** X1. The Express stack is what [start] registered, in this order: the
    seven middlewares, the routes, the 404 stage, the error handler; no
    event adds, removes or reorders a layer. *)
Theorem stack_is_fixed (evs : list Event) :
  app (run evs started) =
    map use (installed_middleware config lib)
    ++ aplicationRoutes lib
    ++ [all Star notFoundHandler; use_error errorHandler]
  /\ length (app (run evs started)) = (9 + length (aplicationRoutes lib))%nat.
Proof.
  rewrite app_run. split; [done |].
  rewrite !length_app, length_map. cbn. lia.
Qed.

(** X2. [listen] is called at most once, only with port 6000, and as
    often as the adapter is installed: once when both broker connections
    have been fulfilled, never otherwise. *)
Theorem listen_at_most_once (evs : list Event) :
  let obs := observed evs started in
  let w := run evs started in
  (count_if is_listen (trace w) <= 1)%nat
  /\ count_if is_adapter (trace w) = count_if is_listen (trace w)
  /\ (forall port, In (Listen port) (trace w) -> port = SERVER_PORT)
  /\ (count_if is_listen (trace w) = 1%nat <->
      fulfilled_in pub_promise obs /\ fulfilled_in sub_promise obs).
Proof.
  intros obs w. pose proof (tally_run config lib evs) as T. fold w in T.
  destruct T as [Tl Tp Ta _ _ _ _]. rewrite Tl, Ta. split_and!.
  - destruct (returned w); cbn; lia.
  - done.
  - exact Tp.
  - unfold fulfilled_in, obs.
    rewrite <- expected_frame_returned, <- (frame_run config lib evs).
    fold w. unfold returned. destruct (frame w); cbn; split; intros H; done.
Qed.

(** No [process.exit] among calls that count none. *)
Lemma no_exit_call (t : list Action) (code : Z) :
  count_if is_exit t = 0%nat -> ~ In (ProcessExit code) t.
Proof.
  induction t as [|a t IH]; cbn; [tauto |].
  intros Hc [-> | Hin]; [done |].
  apply IH; [| done]. destruct (is_exit a); [done | exact Hc].
Qed.

Lemma broker_rejections_alive (evs : list Event) :
  (forall p reason, In (Settled p (Rejected reason)) evs ->
     p = pub_promise \/ p = sub_promise) ->
  exited (run evs started) = None.
Proof.
  intros Hbroker.
  induction evs as [|ev evs IH] using rev_ind; [by rewrite started_eq |].
  assert (exited (run evs started) = None) as Hx.
  { apply IH. intros p reason Hin. apply (Hbroker p reason).
    apply in_or_app. by left. }
  rewrite run_app. cbn. rewrite step_alive by done.
  destruct (exited (snd (react ev (run evs started)))) as [code|] eqn:Hc; [| done].
  exfalso.
  pose proof (invariant_run config lib evs) as I.
  destruct (react_exit _ _ ev I Hx) as (p & reason & -> & Hp).
  { by rewrite Hc. }
  destruct (Hbroker p reason) as [-> | ->].
  - apply in_or_app. right. by left.
  - rewrite (inv_pub _ _ _ _ _ _ I) in Hp.
    by destruct (first_settle pub_promise (observed evs started)).
  - rewrite (inv_sub _ _ _ _ _ _ I) in Hp.
    by destruct (first_settle sub_promise (observed evs started)).
Qed.

(** X3. The program calls [process.exit] only with code 1 and only from
    the catch handler of [connect]: whenever the call occurs among the
    calls made, it is the last one, the call before it is the failure
    entry of the logger setupDatabase, and there is no earlier one.
    (Ways in which Node itself ends a process, such as an uncaught
    exception, are not calls of the program and are not covered.) *)
Theorem exit_call_only_after_storage_failure (evs : list Event) (code : Z) :
  In (ProcessExit code) (trace (run evs started)) ->
  code = 1
  /\ exists t reason,
       trace (run evs started) = t ++ [connect_failed_entry reason; ProcessExit 1]
       /\ count_if is_exit t = 0%nat.
Proof.
  intros Hin. pose proof (tally_exit _ _ _ (tally_run config lib evs)) as H.
  destruct (exited (run evs started)) as [c|].
  - split; [| exact H]. destruct H as (t & reason & Ht & Hc).
    rewrite Ht in Hin. apply in_app_or in Hin as [Hin | Hin].
    + by apply no_exit_call in Hin.
    + destruct Hin as [Hin | [Hin | []]]; [done | by injection Hin].
  - by apply no_exit_call in Hin.
Qed.

(** X4. In a schedule in which no storage attempt is rejected the
    program never calls [process.exit]: rejected broker connections
    alone do not make it exit, and when one was rejected it has no
    adapter and has not called [listen]. *)
Theorem broker_rejections_call_no_exit (evs : list Event) :
  (forall p reason, In (Settled p (Rejected reason)) evs ->
     p = pub_promise \/ p = sub_promise) ->
  (forall code, ~ In (ProcessExit code) (trace (run evs started)))
  /\ (rejected_in pub_promise evs \/ rejected_in sub_promise evs ->
      http (run evs started) = Created
      /\ (forall port, ~ In (Listen port) (trace (run evs started)))
      /\ adapter_of (run evs started) = None
      /\ frame (run evs started) = Caught).
Proof.
  intros Hbroker.
  pose proof (broker_rejections_alive evs Hbroker) as Hlive.
  split.
  { intros code Hin.
    pose proof (tally_exit _ _ _ (tally_run config lib evs)) as H.
    rewrite Hlive in H. by apply no_exit_call in Hin. }
  intros Hrej.
  pose proof (invariant_run config lib evs) as I.
  rewrite (observed_alive _ _ _ _ Hlive) in I.
  assert (expected_frame (first_settle pub_promise evs)
                         (first_settle sub_promise evs) = Caught) as Hc.
  { by apply expected_frame_caught. }
  assert (frame (run evs started) = Caught) as Hf
    by (by rewrite (inv_frame _ _ _ _ _ _ I)).
  split_and!.
  - pose proof (inv_http _ _ _ _ _ _ I) as Hh. by rewrite Hc in Hh.
  - intros port Hin.
    assert (listen_called (run evs started)) as Hl by (by exists port).
    apply listen_called_run in Hl. by rewrite Hf in Hl.
  - rewrite adapter_run, Hf. done.
  - done.
Qed.

(** X5. Reconnect attempts are not serialised: [k] disconnect events in
    a row, with nothing settling in between, leave [k] more connect
    attempts in flight at the same time, each with its own promise. *)
Theorem attempts_are_not_serialised (pre : list Event) (k : nat) :
  let w := run pre started in
  let w' := run (replicate k Disconnected) w in
  exited w = None ->
  exited w' = None
  /\ next_promise w' = (next_promise w + k)%nat
  /\ waiting w' = (waiting w + k)%nat
  /\ (forall i, (i < k)%nat ->
        pending w' !! (next_promise w + i)%nat = Some ThenCatchConnect).
Proof.
  intros w w' Hlive. unfold w'. clear w'. induction k as [|k IH].
  - cbn. split_and!; [done | lia | lia | intros; lia].
  - destruct IH as (Hx & Hn & Hw & Hp).
    replace (replicate (S k) Disconnected)
      with (replicate k Disconnected ++ [Disconnected])
      by (symmetry; apply (replicate_cons_app k Disconnected)).
    rewrite run_app. cbn. unfold w in *. rewrite run_started_app in *.
    pose proof (invariant_run config lib (pre ++ replicate k Disconnected)) as I.
    rewrite (step_disconnected config lib (pre ++ replicate k Disconnected)) by done.
    split_and!.
    + done.
    + cbn. lia.
    + rewrite waiting_insert_connect.
      * unfold waiting in *. cbn. lia.
      * cbn. apply (inv_fresh _ _ _ _ _ _ I). lia.
    + intros i Hi. cbn. rewrite Hn.
      destruct (decide (i = k)) as [->|Hne].
      * apply lookup_insert_eq.
      * rewrite lookup_insert_ne by lia. apply Hp. lia.
Qed.

(** X6. Every connect attempt, the first one and every reconnect, is
    either still in flight or has written exactly one entry of the logger
    setupDatabase; no such entry is written without an attempt. *)
Theorem every_attempt_logs_once (evs : list Event) :
  attempts (run evs started) =
    (count_if is_outcome (trace (run evs started)) + waiting (run evs started))%nat.
Proof. apply (tally_outcomes _ _ _ (tally_run config lib evs)). Qed.

(** X7. After the synchronous part the process only starts connect
    attempts, writes log entries, installs the adapter, calls [listen] and
    exits: it registers no further listener or layer and creates no
    further client or server. *)
Theorem only_runtime_calls_after_startup (evs : list Event) :
  (exists rest,
     trace (run evs started) = startup_calls config lib ++ rest
     /\ Forall (fun a => runtime_call a = true) rest)
  /\ disconnected_listeners (run evs started) = [CbConnect]
  /\ length (clients (run evs started)) = 2%nat.
Proof.
  split_and!.
  - apply (tally_runtime _ _ _ (tally_run config lib evs)).
  - apply (inv_listeners _ _ _ _ _ _ (invariant_run config lib evs)).
  - by rewrite (inv_clients _ _ _ _ _ _ (invariant_run config lib evs)).
Qed.

(** X8. The entry "Server running on port: 6000" is written exactly when
    the port is bound, and at most once; the http server is only ever
    bound to port 6000, and only after [listen] was called. *)
Theorem readiness_is_logged_when_bound (evs : list Event) :
  let w := run evs started in
  count_if is_running_entry (trace w) = Nat.b2n (bound w)
  /\ (http w = Created \/ http w = Binding SERVER_PORT \/ http w = Bound SERVER_PORT)
  /\ (http w <> Created <-> listen_called w).
Proof.
  intros w. pose proof (invariant_run config lib evs) as I.
  pose proof (inv_http _ _ _ _ _ _ I) as Hh.
  rewrite <- (inv_frame _ _ _ _ _ _ I) in Hh. fold w in Hh.
  split_and!.
  - apply (tally_running _ _ _ (tally_run config lib evs)).
  - destruct (frame w); tauto.
  - unfold w. rewrite listen_called_run. fold w.
    destruct (frame w); split; intros H; try done; try (by rewrite Hh in H).
    destruct Hh as [Hb|Hb]; by rewrite Hb.
Qed.

End Process.

(* ===================================================================== *)
(** ** Further properties of the request pipeline *)
(* ===================================================================== *)

Section Pipeline.

Variable config : Config.
Variable lib : Libraries.

Abbreviation run := (run config lib).
Abbreviation started := (started config lib).
Abbreviation layer_match := (layer_match (route_match lib) (star_decodes lib)).
Abbreviation dispatch :=
  (dispatch (finalhandler lib) (route_match lib) (star_decodes lib)).


(** The request as it arrives at the first route that matches it. *)
Lemma dispatch_reaches_route (evs : list Event) (req : Request)
    (skipped later : list Layer) verb pat (h : RequestHandler) :
  transport_takes lib req = false ->
  Forall (fun m => passes_on m req) (installed_middleware config lib) ->
  aplicationRoutes lib = skipped ++ Handle verb pat h :: later ->
  Forall (fun l => layer_match l req = NoMatch) skipped ->
  exists res logs,
    res_sent res = None
    /\ serve_request lib (run evs started) req
       = ByExpress (dispatch (Handle verb pat h :: later ++ terminal_stages lib)
                      None req res logs).
Proof.
  intros Htr Hmw Hroutes Hskip. rewrite serve_request_run, Htr.
  unfold express_serves, serve. rewrite app_run, Hroutes.
  destruct (dispatch_passes lib _
              ((skipped ++ Handle verb pat h :: later) ++ terminal_stages lib) req Hmw
              fresh_response [] eq_refl) as (res & logs & Hres & ->).
  exists res, logs. split; [done |].
  rewrite <- app_assoc. by rewrite dispatch_skips.
Qed.

(** A handler that runs at the head of the stack. *)
Lemma dispatch_matched verb pat (h : RequestHandler) (rest : list Layer) req res logs :
  layer_match (Handle verb pat h) req = Matched ->
  dispatch (Handle verb pat h :: rest) None req res logs =
    match h_next (h req res) with
    | Stop => stopped (h_res (h req res)) (logs ++ h_log (h req res))
    | NextOk => dispatch rest None req (h_res (h req res)) (logs ++ h_log (h req res))
    | NextErr e => dispatch rest (Some e) req (h_res (h req res)) (logs ++ h_log (h req res))
    end.
Proof. intros Hm. cbn [Express.dispatch]. by rewrite Hm. Qed.


(** X10. The routes come before the 404 stage: when the first layer of
    the routes that Express matches against the request answers it, that
    answer is the reply, and the 404 stage is not reached. *)
Theorem route_answer_wins (evs : list Event) (req : Request)
    (skipped later : list Layer) verb pat (h : RequestHandler) (reply : Reply) :
  transport_takes lib req = false ->
  Forall (fun m => passes_on m req) (installed_middleware config lib) ->
  aplicationRoutes lib = skipped ++ Handle verb pat h :: later ->
  Forall (fun l => layer_match l req = NoMatch) skipped ->
  layer_match (Handle verb pat h) req = Matched ->
  answers h req reply ->
  exists s,
    serve_request lib (run evs started) req = ByExpress s
    /\ res_sent (served_res s) = Some reply
    /\ fell_through s = false.
Proof.
  intros Htr Hmw Hroutes Hskip Hmatch Hans.
  destruct (dispatch_reaches_route evs req skipped later verb pat h Htr Hmw Hroutes Hskip)
    as (res & logs & Hres & ->).
  destruct (Hans res Hres) as [Hnext Hsent].
  eexists. split; [reflexivity |].
  rewrite dispatch_matched by done. by rewrite Hnext.
Qed.



End Pipeline.

(* ===================================================================== *)
(** ** These properties at work on the sample deployment *)
(* ===================================================================== *)

Lemma exit_call_only_after_storage_failure_witness :
  In (ProcessExit 1)
     (trace (run Sample.config Sample.lib Sample.storage_refused_late Sample.world))
  /\ exists t reason,
       trace (run Sample.config Sample.lib Sample.storage_refused_late Sample.world)
       = t ++ [connect_failed_entry reason; ProcessExit 1]
       /\ count_if is_exit t = 0%nat.
Proof.
  assert (In (ProcessExit 1)
            (trace (run Sample.config Sample.lib Sample.storage_refused_late Sample.world)))
    as Hin by (vm_compute; tauto).
  split; [exact Hin |].
  apply (exit_call_only_after_storage_failure Sample.config Sample.lib
           Sample.storage_refused_late 1 Hin).
Defined.

Lemma sample_bridge_refused_rejections (p : PromiseId) (reason : IErrorResponse) :
  In (Settled p (Rejected reason)) sample_bridge_refused ->
  p = pub_promise \/ p = sub_promise.
Proof.
  cbn. intros [H|[H|[H|[H|[H|[]]]]]]; try discriminate.
  injection H as <- _. by right.
Qed.

Lemma broker_rejections_call_no_exit_witness :
  ~ In (ProcessExit 1)
       (trace (run Sample.config Sample.lib sample_bridge_refused Sample.world))
  /\ http (run Sample.config Sample.lib sample_bridge_refused Sample.world) = Created.
Proof.
  destruct (broker_rejections_call_no_exit Sample.config Sample.lib sample_bridge_refused
              sample_bridge_refused_rejections) as [Hlive Hrest].
  split; [exact (Hlive 1) |].
  apply Hrest. right. exists Sample.refused. reflexivity.
Defined.

Lemma attempts_are_not_serialised_witness :
  exited Sample.booted = None
  /\ waiting (run Sample.config Sample.lib (replicate 3 Disconnected) Sample.booted)
     = (waiting Sample.booted + 3)%nat.
Proof.
  split; [vm_compute; reflexivity |].
  destruct (attempts_are_not_serialised Sample.config Sample.lib Sample.good_boot 3)
    as (_ & _ & H & _).
  - vm_compute. reflexivity.
  - exact H.
Defined.


Lemma route_answer_wins_witness :
  exists s,
    serve_request Sample.lib Sample.booted sample_health_request = ByExpress s
    /\ res_sent (served_res s) =
         Some {| reply_status := 200;
                 reply_body := Some (JObj [("status", JStr "ok")]) |}
    /\ fell_through s = false.
Proof.
  apply (route_answer_wins Sample.config Sample.lib Sample.good_boot
           sample_health_request []
           [Handle (Some "POST") (Exact "/signup") Sample.signup]
           (Some "GET") (Exact "/health") Sample.health).
  - reflexivity.
  - apply sample_middleware_passes.
  - reflexivity.
  - constructor.
  - reflexivity.
  - intros res Hres. unfold Sample.health, json. cbn. rewrite Hres. cbn.
    split; reflexivity.
Defined.


